(** * Proxy mode specifications: [mitmproxy/proxy/mode_specs.py]

    A shallow embedding of the parser of proxy mode specifications
    ([ProxyMode.parse] and the [__post_init__] validators of its
    subclasses), of the listen address accessors, of the state codec and of
    the [functools.cache] that wraps [parse].

    Conventions of the embedding.
    - A Python [str] is a [string]; each [ascii] stands for one code point
      in the range 0..255, so the development covers the Latin-1 fragment
      of Python strings.  The builtins [str.lower] and [int] are modelled on
      that fragment.
    - A Python [int] is a [Z].
    - [None] is [None]; a raised exception is the [Raise] case of [result].
    - [server_spec.parse] lives in another module; the parser is defined in
      a section that takes it as a variable. *)

From Stdlib Require Import ZArith Ascii String List Lia Bool.
From stdpp Require Import base option countable gmap strings.

Open Scope string_scope.
Open Scope Z_scope.

(** ** Python string builtins *)

Module PyStr.

(** [c in s] for a one-character [c]. *)
Fixpoint contains (c : ascii) (s : string) : bool :=
  match s with
  | EmptyString => false
  | String a r => if Ascii.eqb a c then true else contains c r
  end.

(** [s.partition(c)] for a one-character separator: the text before the
    first [c], the separator, the text after it; [(s, "", "")] when [c]
    does not occur. *)
Fixpoint partition (c : ascii) (s : string) : string * string * string :=
  match s with
  | EmptyString => (EmptyString, EmptyString, EmptyString)
  | String a r =>
      if Ascii.eqb a c then (EmptyString, String c EmptyString, r)
      else let '(h, m, t) := partition c r in (String a h, m, t)
  end.

(** The position-independent core of [rpartition]: split at the last [c]. *)
Fixpoint rsplit (c : ascii) (s : string) : option (string * string) :=
  match s with
  | EmptyString => None
  | String a r =>
      match rsplit c r with
      | Some (h, t) => Some (String a h, t)
      | None => if Ascii.eqb a c then Some (EmptyString, r) else None
      end
  end.

(** [s.rpartition(c)]: split at the last [c]; [("", "", s)] when [c] does
    not occur. *)
Definition rpartition (c : ascii) (s : string) : string * string * string :=
  match rsplit c s with
  | Some (h, t) => (h, String c EmptyString, t)
  | None => (EmptyString, EmptyString, s)
  end.

(** [s.removesuffix(suffix)]. *)
Fixpoint removesuffix (suffix s : string) : string :=
  if String.eqb s suffix then EmptyString
  else match s with
       | EmptyString => EmptyString
       | String a r => String a (removesuffix suffix r)
       end.

(** [str.lower] on one code point below 256: A-Z and the Latin-1 capitals
    U+00C0..U+00DE (but not the multiplication sign U+00D7) move up by 32. *)
Definition lower_char (c : ascii) : ascii :=
  let n := N_of_ascii c in
  if ((65 <=? n) && (n <=? 90) ||
      (192 <=? n) && (n <=? 222) && negb (n =? 215))%N
  then ascii_of_N (n + 32) else c.

Fixpoint lower (s : string) : string :=
  match s with
  | EmptyString => EmptyString
  | String a r => String (lower_char a) (lower r)
  end.

(** Truthiness of a string: [if s:] holds when [s] is not empty. *)
Definition truthy (s : string) : bool :=
  match s with EmptyString => false | _ => true end.

(** *** [int(s)] in base 10 *)

(** White space skipped by [int]: the C locale's space characters, and the
    two Latin-1 code points U+0085 and U+00A0 that the interpreter turns
    into a space first. *)
Definition is_space (c : ascii) : bool :=
  let n := N_of_ascii c in
  ((9 <=? n) && (n <=? 13) || (n =? 32) || (n =? 133) || (n =? 160))%N.

Definition is_digit (c : ascii) : bool :=
  let n := N_of_ascii c in ((48 <=? n) && (n <=? 57))%N.

Definition digit_value (c : ascii) : Z := Z.of_N (N_of_ascii c) - 48.

Fixpoint lstrip (s : string) : string :=
  match s with
  | String a r => if is_space a then lstrip r else s
  | EmptyString => EmptyString
  end.

Fixpoint all_space (s : string) : bool :=
  match s with
  | EmptyString => true
  | String a r => is_space a && all_space r
  end.

(** The digit loop: digits accumulate in [acc], a single underscore may
    sit between two digits.  Returns the value, whether the last character
    read was an underscore, and the unread rest; [None] on a doubled
    underscore. *)
Fixpoint scan_digits (s : string) (prev_us : bool) (acc : Z)
  : option (Z * bool * string) :=
  match s with
  | EmptyString => Some (acc, prev_us, EmptyString)
  | String a r =>
      if is_digit a then scan_digits r false (10 * acc + digit_value a)
      else if Ascii.eqb a "_" then
             if prev_us then None else scan_digits r true acc
      else Some (acc, prev_us, s)
  end.

(** The limit of [int] on the number of digits of a decimal string, as the
    interpreter starts with: [sys.int_info.default_max_str_digits]. *)
Definition int_max_str_digits : Z := 4300.

(** The number of digits in the run of digits and underscores that [s]
    starts with; underscores do not count. *)
Fixpoint count_digits (s : string) : Z :=
  match s with
  | EmptyString => 0
  | String a r =>
      if is_digit a then 1 + count_digits r
      else if Ascii.eqb a "_" then count_digits r
      else 0
  end.

(** [int(s)]: optional white space, an optional sign, digits with single
    underscores between them, optional white space; a run of more than
    [int_max_str_digits] digits is refused.  [None] stands for
    [ValueError]. *)
Definition split_sign (s : string) : bool * string :=
  match s with
  | String "+" r => (false, r)
  | String "-" r => (true, r)
  | _ => (false, s)
  end.

Definition int (s : string) : option Z :=
  let '(neg, s2) := split_sign (lstrip s) in
  match s2 with
  | String a _ =>
      if is_digit a then
        match scan_digits s2 false 0 with
        | Some (v, false, rest) =>
            if int_max_str_digits <? count_digits s2 then None
            else if all_space rest then Some (if neg then - v else v)
            else None
        | _ => None
        end
      else None
  | EmptyString => None
  end.

End PyStr.

Import PyStr.

(** ** The class hierarchy and the registry [ProxyMode.__types] *)

(** The concrete subclasses of [ProxyMode], in the order of their
    definition. *)
Inductive mode_cls :=
| RegularMode | TransparentMode | UpstreamMode | ReverseMode
| Socks5Mode | DnsMode | DtlsMode.

(** The class [parse] is called on: the abstract base [ProxyMode] itself or
    one of its subclasses. *)
Inductive parse_cls :=
| ProxyModeCls
| SubCls (c : mode_cls).

#[global] Instance mode_cls_eq_dec : EqDecision mode_cls.
Proof. solve_decision. Defined.

#[global] Instance parse_cls_eq_dec : EqDecision parse_cls.
Proof. solve_decision. Defined.

Definition mode_cls_index (c : mode_cls) : nat :=
  match c with
  | RegularMode => 0 | TransparentMode => 1 | UpstreamMode => 2
  | ReverseMode => 3 | Socks5Mode => 4 | DnsMode => 5 | DtlsMode => 6
  end%nat.

Definition mode_cls_of_index (n : nat) : option mode_cls :=
  match n with
  | 0 => Some RegularMode | 1 => Some TransparentMode | 2 => Some UpstreamMode
  | 3 => Some ReverseMode | 4 => Some Socks5Mode | 5 => Some DnsMode
  | 6 => Some DtlsMode | _ => None
  end%nat.

#[global] Program Instance mode_cls_countable : Countable mode_cls :=
  inj_countable mode_cls_index mode_cls_of_index _.
Next Obligation. by intros []. Qed.

#[global] Program Instance parse_cls_countable : Countable parse_cls :=
  inj_countable
    (fun c => match c with ProxyModeCls => None | SubCls m => Some m end)
    (fun o => Some (match o with None => ProxyModeCls | Some m => SubCls m end))
    _.
Next Obligation. by intros []. Qed.

(** [cls.__name__] *)
Definition class_name (c : mode_cls) : string :=
  match c with
  | RegularMode => "RegularMode"
  | TransparentMode => "TransparentMode"
  | UpstreamMode => "UpstreamMode"
  | ReverseMode => "ReverseMode"
  | Socks5Mode => "Socks5Mode"
  | DnsMode => "DnsMode"
  | DtlsMode => "DtlsMode"
  end.

(** [cls.type], as [__init_subclass__] derives it. *)
Definition type (c : mode_cls) : string :=
  lower (removesuffix "Mode" (class_name c)).

(** [cls.default_port]: 8080 unless the subclass overrides it. *)
Definition default_port (c : mode_cls) : Z :=
  match c with
  | Socks5Mode => 1080
  | DnsMode => 53
  | DtlsMode => 8084
  | _ => 8080
  end.

Inductive transport := tcp | udp.

Definition transport_protocol (c : mode_cls) : transport :=
  match c with
  | DnsMode | DtlsMode => udp
  | _ => tcp
  end.

(** [__init_subclass__]: the [assert] fails ([None]) when the type name is
    taken, otherwise the class is entered under its type name. *)
Definition init_subclass (types : gmap string mode_cls) (c : mode_cls)
  : option (gmap string mode_cls) :=
  match types !! type c with
  | Some _ => None
  | None => Some (<[type c := c]> types)
  end.

Definition subclasses : list mode_cls :=
  [RegularMode; TransparentMode; UpstreamMode; ReverseMode;
   Socks5Mode; DnsMode; DtlsMode].

Definition register_all (l : list mode_cls) : option (gmap string mode_cls) :=
  fold_left (fun acc c => match acc with
                          | Some t => init_subclass t c
                          | None => None
                          end) l (Some ∅).

(** [ProxyMode.__types] once the module is loaded. *)
Definition types : gmap string mode_cls :=
  default ∅ (register_all subclasses).

(** [issubclass(mode_cls, cls)] *)
Definition issubclass (m : mode_cls) (cls : parse_cls) : bool :=
  match cls with
  | ProxyModeCls => true
  | SubCls c => bool_decide (m = c)
  end.

(** ** Exceptions *)

(** One constructor per [raise] of the module, named after the error kinds
    of the design document; the comment gives the exception raised. *)
Inductive error :=
| InvalidPort (port_str : string)
    (* ValueError(f"invalid port: {port_str}") *)
| UnknownMode
    (* ValueError("unknown mode") *)
| WrongModeCategory (mode : string) (cls_type : string)
    (* ValueError(f"{mode!r} is not a spec for a {cls.type} mode") *)
| UnexpectedArguments
    (* ValueError("mode takes no arguments") *)
| InvalidScheme (c : mode_cls)
    (* ValueError("invalid upstream proxy scheme"), "invalid reverse proxy
       scheme", "invalid dns scheme", "invalid dtls scheme" *)
| InvalidDnsMode
    (* ValueError("invalid dns mode") *)
| InvalidDtlsMode
    (* ValueError("invalid dtls mode") *)
| ResolverError (msg : string)
    (* an exception raised inside server_spec.parse, passed on unchanged *)
| FrozenStateViolation.
    (* RuntimeError("Proxy modes are frozen.") *)

Inductive result (A : Type) :=
| Ok (a : A)
| Raise (e : error).
Arguments Ok {A} a.
Arguments Raise {A} e.

Definition bind {A B} (m : result A) (k : A -> result B) : result B :=
  match m with
  | Ok a => k a
  | Raise e => Raise e
  end.

Notation "'let*' x := m 'in' k" := (bind m (fun x => k))
  (at level 10, x pattern, m at level 100, k at level 200, only parsing).

(** ** Instances *)

(** A [ProxyMode] instance: its class, the four dataclass fields, and the
    attributes [scheme] and [address] that some validators set ([None] when
    the attribute was not assigned). *)
Record ProxyMode := mkProxyMode {
  cls : mode_cls;
  full_spec : string;
  data : string;
  custom_listen_host : option string;
  custom_listen_port : option Z;
  scheme : option string;
  address : option (string * Z)
}.

(** What [server_spec.parse] returns: [(scheme, (host, port))]. *)
Definition ServerSpec : Type := string * (string * Z).

(** ** The parser *)

Section Parser.

(** [server_spec.parse(server_spec, default_scheme)]: it returns a
    [ServerSpec] or raises; the message of the exception is kept. *)
Variable server_spec_parse : string -> string -> string + ServerSpec.

Definition resolve (raw default_scheme : string) : result ServerSpec :=
  match server_spec_parse raw default_scheme with
  | inr r => Ok r
  | inl msg => Raise (ResolverError msg)
  end.

(** [_check_empty(data)] *)
Definition _check_empty (data : string) : result unit :=
  if truthy data then Raise UnexpectedArguments else Ok tt.

(** [__post_init__] of each subclass.  It runs on an instance whose four
    fields are set and returns the values it leaves in the attributes
    [scheme] and [address]. *)
Definition post_init (c : mode_cls) (data : string)
  : result (option string * option (string * Z)) :=
  match c with
  | RegularMode | TransparentMode | Socks5Mode =>
      let* _ := _check_empty data in
      Ok (None, None)
  | UpstreamMode =>
      let* (scheme, address) := resolve data "http" in
      if negb (String.eqb scheme "http") && negb (String.eqb scheme "https")
      then Raise (InvalidScheme UpstreamMode)
      else Ok (Some scheme, Some address)
  | ReverseMode =>
      let* (scheme, address) := resolve data "https" in
      if negb (String.eqb scheme "http") && negb (String.eqb scheme "https")
         && negb (String.eqb scheme "tcp") && negb (String.eqb scheme "tls")
      then Raise (InvalidScheme ReverseMode)
      else Ok (Some scheme, Some address)
  | DnsMode =>
      if bool_decide (data ∈ [""; "resolve-local"; "transparent"])
      then Ok (None, None)
      else
        let '(m, _, server) := partition ":" data in
        if negb (String.eqb m "reverse") then Raise InvalidDnsMode
        else
          let* (scheme, address) := resolve server "dns" in
          if negb (String.eqb scheme "dns")
          then Raise (InvalidScheme DnsMode)
          else Ok (Some scheme, Some address)
  | DtlsMode =>
      let '(m, _, server) := partition ":" data in
      if negb (String.eqb m "reverse") then Raise InvalidDtlsMode
      else
        let* (scheme, address) := resolve server "dtls" in
        if negb (String.eqb scheme "dtls")
        then Raise (InvalidScheme DtlsMode)
        else Ok (Some scheme, Some address)
  end.

(** The constructor call [mode_cls(full_spec=..., data=..., ...)]: the
    dataclass [__init__] stores the fields and calls [__post_init__]. *)
Definition construct (c : mode_cls) (spec data : string)
    (host : option string) (port : option Z) : result ProxyMode :=
  let* (scheme, address) := post_init c data in
  Ok (mkProxyMode c spec data host port scheme address).

(** Lines 83-88 of [parse]: the spec is cut into the mode name, the mode
    data and the listen segment. *)
Definition split_spec (spec : string) : string * string * string :=
  let '(head, _, listen_at) := rpartition "@" spec in
  let '(head, listen_at) :=
    if negb (truthy head) then (listen_at, "") else (head, listen_at) in
  let '(mode, _, data) := partition ":" head in
  (mode, data, listen_at).

(** Lines 90-104: the listen segment gives the host and the port. *)
Definition parse_listen_at (listen_at : string)
  : result (option string * option Z) :=
  if truthy listen_at then
    let '(host, port_str) :=
      if contains ":" listen_at
      then let '(host, _, port_str) := rpartition ":" listen_at in
           (Some host, port_str)
      else (None, listen_at) in
    match int port_str with
    | Some port =>
        if (port <? 0) || (65535 <? port)
        then Raise (InvalidPort port_str)
        else Ok (host, Some port)
    | None => Raise (InvalidPort port_str)
    end
  else Ok (None, None).

(** Lines 106-112: the registry lookup and the subclass check. *)
Definition lookup_mode (cls : parse_cls) (mode : string) : result mode_cls :=
  match types !! lower mode with
  | None => Raise UnknownMode
  | Some mode_cls =>
      if negb (issubclass mode_cls cls)
      then Raise (WrongModeCategory mode
                    (match cls with SubCls c => type c | ProxyModeCls => "" end))
      else Ok mode_cls
  end.

(** Everything [parse] does before it calls the constructor. *)
Definition parse_args (cls : parse_cls) (spec : string)
  : result (mode_cls * string * option string * option Z) :=
  let '(mode, data, listen_at) := split_spec spec in
  let* (host, port) := parse_listen_at listen_at in
  let* mode_cls := lookup_mode cls mode in
  Ok (mode_cls, data, host, port).

(** The body of [ProxyMode.parse], without the cache. *)
Definition parse (cls : parse_cls) (spec : string) : result ProxyMode :=
  let* (mode_cls, data, host, port) := parse_args cls spec in
  construct mode_cls spec data host port.

(** ** Listen address *)

Definition listen_host (self : ProxyMode) (default : option string) : string :=
  match custom_listen_host self with
  | Some h => h
  | None => match default with
            | Some d => d
            | None => ""
            end
  end.

Definition listen_port (self : ProxyMode) (default : option Z) : Z :=
  match custom_listen_port self with
  | Some p => p
  | None => match default with
            | Some d => d
            | None => default_port (cls self)
            end
  end.

(** [DnsMode.resolve_local] *)
Definition resolve_local (self : ProxyMode) : bool :=
  bool_decide (data self ∈ [""; "resolve-local"]).

(** ** State codec *)

Definition get_state (self : ProxyMode) : string := full_spec self.

(** [set_state] has no assignment: it returns the outcome together with
    the receiver as it is after the call. *)
Definition set_state (self : ProxyMode) (state : string)
  : result unit * ProxyMode :=
  if negb (String.eqb state (full_spec self))
  then (Raise FrozenStateViolation, self)
  else (Ok tt, self).

(** [from_state] ignores the class it is called on. *)
Definition from_state (cls : parse_cls) (state : string) : result ProxyMode :=
  parse ProxyModeCls state.

End Parser.

(** ** The cache around [parse] *)

(** [parse] is wrapped by [functools.cache] below [classmethod]: the cached
    function is called with [cls] and [spec], and [functools] makes the key
    from the positional arguments followed by the keyword arguments.  So the
    key holds the class, the spec string, and the way the string was passed:
    by position, [cls.parse(s)], or by keyword, [cls.parse(spec=s)]. *)
Inductive call_form := Positional | Keyword.

#[global] Instance call_form_eq_dec : EqDecision call_form.
Proof. solve_decision. Defined.

#[global] Program Instance call_form_countable : Countable call_form :=
  inj_countable
    (fun f => match f with Positional => false | Keyword => true end)
    (fun b => Some (if b then Keyword else Positional))
    _.
Next Obligation. by intros []. Qed.

(** An instance has an identity; the store counts the constructor calls,
    each of which makes a new object and runs its [__post_init__] once. *)
Record obj := mkObj {
  obj_id : nat;
  obj_val : ProxyMode
}.

Record store := mkStore {
  cache : gmap (parse_cls * call_form * string) obj;
  constructed : nat
}.

Definition empty_store : store := mkStore ∅ 0.

Section Cached.

Variable server_spec_parse : string -> string -> string + ServerSpec.

(** The wrapped function, as it runs on a miss after [n] constructor calls:
    its outcome and the number of constructor calls after it. *)
Definition parse_body (cls : parse_cls) (spec : string) (n : nat)
  : result obj * nat :=
  match parse_args cls spec with
  | Raise e => (Raise e, n)
  | Ok (mode_cls, data, host, port) =>
      match construct server_spec_parse mode_cls spec data host port with
      | Raise e => (Raise e, S n)
      | Ok v => (Ok (mkObj n v), S n)
      end
  end.

(** What the wrapper does when the wrapped function is done: a result that
    was returned is written under the key, whatever is there
    ([cache[key] = result]); an exception is not cached. *)
Definition store_result (k : parse_cls * call_form * string)
    (res : result obj) (n : nat) (st : store) : store :=
  match res with
  | Ok o => mkStore (<[k := o]> (cache st)) n
  | Raise _ => mkStore (cache st) n
  end.

(** A call of [parse] that no other call overlaps: a hit returns the stored
    object and leaves the store alone; a miss runs the wrapped function. *)
Definition parse_call (form : call_form) (cls : parse_cls) (spec : string)
    (st : store) : result obj * store :=
  match cache st !! (cls, form, spec) with
  | Some o => (Ok o, st)
  | None =>
      let '(res, n) := parse_body cls spec (constructed st) in
      (res, store_result (cls, form, spec) res n st)
  end.

(** [cls.parse(spec)], the spec passed by position. *)
Definition parse_cached (cls : parse_cls) (spec : string) (st : store)
  : result obj * store :=
  parse_call Positional cls spec st.

(** [cls.from_state(state)] is [ProxyMode.parse(state)], by position. *)
Definition from_state_cached (cls : parse_cls) (state : string) (st : store)
  : result obj * store :=
  parse_cached ProxyModeCls state st.

(** A sequence of calls [cls.parse(spec)], results dropped. *)
Definition run (calls : list (parse_cls * string)) (st : store) : store :=
  fold_left (fun st call => snd (parse_cached call.1 call.2 st)) calls st.

(** A sequence of calls of [parse] in either form, results dropped. *)
Definition run_calls (calls : list (parse_cls * call_form * string))
    (st : store) : store :=
  fold_left (fun st k => snd (parse_call k.1.2 k.1.1 k.2 st)) calls st.

(** Every cached object is what the body of [parse] returns for its key. *)
Definition cache_sound (st : store) : Prop :=
  forall cls form spec o,
    cache st !! (cls, form, spec) = Some o ->
    parse server_spec_parse cls spec = Ok (obj_val o).

(** *** Calls that overlap *)

(** The wrapper holds no lock while the wrapped function runs, so calls
    from several threads may overlap.  A call is two steps: [Enter], the
    lookup, which returns at once on a hit and otherwise leaves the call
    in flight; and [Leave], at which a call in flight has run the wrapped
    function, writes its result and returns.  The state is the store and
    the keys of the calls in flight. *)
Inductive event :=
| Enter (k : parse_cls * call_form * string)
| Leave (k : parse_cls * call_form * string).

Definition event_key (ev : event) : parse_cls * call_form * string :=
  match ev with Enter k => k | Leave k => k end.

Fixpoint remove_first (k : parse_cls * call_form * string)
    (l : list (parse_cls * call_form * string))
  : list (parse_cls * call_form * string) :=
  match l with
  | [] => []
  | x :: l' => if decide (x = k) then l' else x :: remove_first k l'
  end.

Definition enter (k : parse_cls * call_form * string)
    (cs : store * list (parse_cls * call_form * string))
  : option (result obj) * (store * list (parse_cls * call_form * string)) :=
  match cache cs.1 !! k with
  | Some o => (Some (Ok o), cs)
  | None => (None, (cs.1, k :: cs.2))
  end.

(** [Leave k] without a call of [k] in flight does nothing. *)
Definition leave (k : parse_cls * call_form * string)
    (cs : store * list (parse_cls * call_form * string))
  : option (result obj) * (store * list (parse_cls * call_form * string)) :=
  if bool_decide (k ∈ cs.2) then
    let '(res, n) := parse_body k.1.1 k.2 (constructed cs.1) in
    (Some res, (store_result k res n cs.1, remove_first k cs.2))
  else (None, cs).

Definition step (ev : event)
    (cs : store * list (parse_cls * call_form * string))
  : option (result obj) * (store * list (parse_cls * call_form * string)) :=
  match ev with
  | Enter k => enter k cs
  | Leave k => leave k cs
  end.

(** A run of events: what the calls returned, in order, and the state at
    the end. *)
Fixpoint exec (evs : list event)
    (cs : store * list (parse_cls * call_form * string))
  : list ((parse_cls * call_form * string) * result obj)
    * (store * list (parse_cls * call_form * string)) :=
  match evs with
  | [] => ([], cs)
  | ev :: evs' =>
      let '(ret, cs1) := step ev cs in
      let '(log, cs2) := exec evs' cs1 in
      (match ret with
       | Some res => (event_key ev, res) :: log
       | None => log
       end, cs2)
  end.

(** What a call with key [k] may return: what the body of [parse] gives. *)
Definition sound_return (k : parse_cls * call_form * string)
    (res : result obj) : Prop :=
  match res with
  | Ok o => parse server_spec_parse k.1.1 k.2 = Ok (obj_val o)
  | Raise e => parse server_spec_parse k.1.1 k.2 = Raise e
  end.

End Cached.


(** ** The address spec resolver *)

Module AddressSpec.

(** The text before and after the first ["://"]. *)
Fixpoint split_scheme (raw : string) : option (string * string) :=
  match raw with
  | EmptyString => None
  | String ":" (String "/" (String "/" t)) => Some (EmptyString, t)
  | String a r =>
      match split_scheme r with
      | Some (h, t) => Some (String a h, t)
      | None => None
      end
  end.

Fixpoint digits_value (s : string) (acc : Z) : option Z :=
  match s with
  | EmptyString => Some acc
  | String a r =>
      if is_digit a then digits_value r (10 * acc + digit_value a) else None
  end.

(** A non-empty run of decimal digits. *)
Definition decimal (s : string) : option Z :=
  match s with
  | EmptyString => None
  | _ => digits_value s 0
  end.

(** Modelled from the spec: [server_spec.parse] of [mitmproxy.net] is not
    part of the sources at hand.  The design document gives its interface:
    it "parses a [[scheme://]host:port] fragment into
    [(scheme, (host, port))], applying a caller-supplied default scheme",
    "failing when [raw] is not a well-formed [[scheme://]host:port] (or
    [host:port] using [default_scheme]) or when the port is out of range".
    Here: the scheme is the text before the first ["://"] when there is
    one, the port is the run of digits after the last colon of the rest,
    at most 65535, and the host is what lies between; scheme and host must
    not be empty.  Without a colon the rest is the host, and the port is
    the one of the scheme: the document has [https://example.com] resolve
    to the port 443 (its scenario 2) and names no other such port, so
    other schemes need the port. *)
Definition resolve (raw default_scheme : string) : string + ServerSpec :=
  let '(scheme, rest) :=
    match split_scheme raw with
    | Some (s, r) => (s, r)
    | None => (default_scheme, raw)
    end in
  match rsplit ":" rest with
  | None =>
      if negb (truthy scheme) || negb (truthy rest)
      then inl ("Invalid server specification: " ++ raw)
      else if String.eqb scheme "https" then inr (scheme, (rest, 443))
      else inl "Port specification missing."
  | Some (host, port_str) =>
      if negb (truthy scheme) || negb (truthy host)
      then inl ("Invalid server specification: " ++ raw)
      else match decimal port_str with
           | None => inl ("Invalid server specification: " ++ raw)
           | Some port =>
               if 65535 <? port then inl ("Invalid port: " ++ port_str)
               else inr (scheme, (host, port))
           end
  end.

End AddressSpec.

(** ** Vocabulary of the statements *)

(** [s] is [h], the character [c], and [t], where [c] does not occur in
    [t]: the cut is at the last [c] of [s]. *)
Definition cut_at_last (c : ascii) (s h t : string) : Prop :=
  s = h ++ String c t /\ contains c t = false.

(** The cut of [s] at its first [c]: [h] is free of [c].  Without any [c]
    in [s], [h] is all of [s] and [t] is empty. *)
Definition cut_at_first (c : ascii) (s h t : string) : Prop :=
  (s = h ++ String c t /\ contains c h = false) \/
  (contains c s = false /\ h = s /\ t = EmptyString).

(** The listen segment of a spec and the port string inside it, as [parse]
    reads them. *)
Definition listen_segment (spec : string) : string := (split_spec spec).2.

Definition port_str_of (listen_at : string) : string :=
  if contains ":" listen_at then (rpartition ":" listen_at).2 else listen_at.

(** The string is accepted by [int] and denotes a port number. *)
Definition valid_port_str (p : string) : Prop :=
  exists n, int p = Some n /\ 0 <= n <= 65535.

(** The mode name and the mode data of a spec, as [parse] reads them. *)
Definition mode_name (spec : string) : string := (split_spec spec).1.1.

Definition mode_data (spec : string) : string := (split_spec spec).1.2.

(** The spec has no listen segment, or one with a port string that is
    accepted. *)
Definition port_ok (spec : string) : Prop :=
  listen_segment spec = "" \/ valid_port_str (port_str_of (listen_segment spec)).

(** The classes whose validator is [_check_empty]. *)
Definition no_args (c : mode_cls) : bool :=
  match c with
  | RegularMode | TransparentMode | Socks5Mode => true
  | _ => false
  end.

(** The instance with another [full_spec]. *)
Definition with_full_spec (self : ProxyMode) (spec : string) : ProxyMode :=
  mkProxyMode (cls self) spec (data self) (custom_listen_host self)
    (custom_listen_port self) (scheme self) (address self).

(** One step of the loading of the module: the next class statement runs
    [__init_subclass__], unless an earlier [assert] has failed. *)
Definition register_step (acc : option (gmap string mode_cls)) (c : mode_cls)
  : option (gmap string mode_cls) :=
  match acc with
  | Some t => init_subclass t c
  | None => None
  end.

(** * Properties *)

(** ** The registry *)

(** No [assert] of [__init_subclass__] fails while the module is loaded, and
    each type name leads to its class. *)
Lemma registry_built : register_all subclasses = Some types.
Proof. by vm_compute. Qed.

Lemma registry_lookup c : types !! type c = Some c.
Proof. by destruct c; vm_compute. Qed.

(** ** Splitting strings *)

Section Splitting.

Implicit Types (c : ascii) (s h t : string).

Lemma contains_app c h t :
  contains c (h ++ t) = contains c h || contains c t.
Proof.
  induction h as [|a h IH]; simpl; [done|].
  destruct (Ascii.eqb a c); [done|apply IH].
Qed.

Lemma contains_cons_same c t : contains c (String c t) = true.
Proof. simpl. by rewrite Ascii.eqb_refl. Qed.

Lemma rsplit_absent c s : contains c s = false -> rsplit c s = None.
Proof.
  induction s as [|a s IH]; simpl; [done|].
  destruct (Ascii.eqb a c); [done|]. intros H. by rewrite IH.
Qed.

Lemma rsplit_present c s : contains c s = true -> is_Some (rsplit c s).
Proof.
  induction s as [|a s IH]; simpl; [done|].
  destruct (rsplit c s) as [[h t]|]; [by eauto|].
  destruct (Ascii.eqb a c); [by eauto|]. intros H. by destruct (IH H).
Qed.

(** [rsplit] cuts at the last occurrence. *)
Lemma rsplit_app c h t :
  contains c t = false -> rsplit c (h ++ String c t) = Some (h, t).
Proof.
  intros Ht. induction h as [|a h IH]; simpl.
  - by rewrite (rsplit_absent _ _ Ht), Ascii.eqb_refl.
  - by rewrite IH.
Qed.

Lemma rsplit_Some c s h t :
  rsplit c s = Some (h, t) -> s = h ++ String c t /\ contains c t = false.
Proof.
  revert h. induction s as [|a s IH]; intros h; simpl; [done|].
  destruct (rsplit c s) as [[h' t']|] eqn:E.
  - intros [= <- <-]. destruct (IH h' eq_refl) as [-> Ht]. done.
  - destruct (Ascii.eqb a c) eqn:Ea; [|done].
    intros [= <- <-]. apply Ascii.eqb_eq in Ea as ->. split; [done|].
    destruct (contains c s) eqn:Ec; [|done].
    destruct (rsplit_present _ _ Ec) as [x Hx]. congruence.
Qed.

Lemma rpartition_app c h t :
  contains c t = false ->
  rpartition c (h ++ String c t) = (h, String c EmptyString, t).
Proof. intros Ht. unfold rpartition. by rewrite rsplit_app. Qed.

Lemma rpartition_absent c s :
  contains c s = false -> rpartition c s = (EmptyString, EmptyString, s).
Proof. intros Hs. unfold rpartition. by rewrite rsplit_absent. Qed.

(** [partition] cuts at the first occurrence. *)
Lemma partition_app c h t :
  contains c h = false ->
  partition c (h ++ String c t) = (h, String c EmptyString, t).
Proof.
  induction h as [|a h IH]; simpl.
  - by rewrite Ascii.eqb_refl.
  - destruct (Ascii.eqb a c); [done|]. intros Hh. by rewrite IH.
Qed.

Lemma partition_absent c s :
  contains c s = false -> partition c s = (s, EmptyString, EmptyString).
Proof.
  induction s as [|a s IH]; simpl; [done|].
  destruct (Ascii.eqb a c); [done|]. intros Hs. by rewrite IH.
Qed.

Lemma truthy_false s : truthy s = false <-> s = EmptyString.
Proof. by destruct s. Qed.

Lemma truthy_true s : truthy s = true <-> s <> EmptyString.
Proof. by destruct s. Qed.

End Splitting.

Lemma partition_cut_at_first c s h t :
  cut_at_first c s h t -> exists m, partition c s = (h, m, t).
Proof.
  intros [[-> Hh]|(Hs & -> & ->)].
  - rewrite partition_app by done. eauto.
  - rewrite partition_absent by done. eauto.
Qed.

(** The unfolding of [parse] along a known split of the spec. *)
Lemma parse_split r cls spec mode data listen_at :
  split_spec spec = (mode, data, listen_at) ->
  parse r cls spec =
    (let* (host, port) := parse_listen_at listen_at in
     let* mode_cls := lookup_mode cls mode in
     construct r mode_cls spec data host port).
Proof.
  intros H. unfold parse, parse_args. rewrite H.
  destruct (parse_listen_at listen_at) as [[host port]|e]; simpl; [|done].
  by destruct (lookup_mode cls mode).
Qed.

Lemma split_spec_listen head listen_at mode data :
  head <> EmptyString ->
  contains "@" listen_at = false ->
  cut_at_first ":" head mode data ->
  split_spec (head ++ String "@" listen_at) = (mode, data, listen_at).
Proof.
  intros Hne Hl Hcut. unfold split_spec.
  rewrite rpartition_app by done.
  apply truthy_true in Hne. rewrite Hne. simpl.
  destruct (partition_cut_at_first _ _ _ _ Hcut) as [m ->]. done.
Qed.

Lemma split_spec_leading_at rest mode data :
  contains "@" rest = false ->
  cut_at_first ":" rest mode data ->
  split_spec (String "@" rest) = (mode, data, EmptyString).
Proof.
  intros Hr Hcut. unfold split_spec.
  change (String "@" rest) with (EmptyString ++ String "@" rest).
  rewrite rpartition_app by done. simpl.
  destruct (partition_cut_at_first _ _ _ _ Hcut) as [m ->]. done.
Qed.

Lemma split_spec_no_at spec mode data :
  contains "@" spec = false ->
  cut_at_first ":" spec mode data ->
  split_spec spec = (mode, data, EmptyString).
Proof.
  intros Hr Hcut. unfold split_spec.
  rewrite rpartition_absent by done. simpl.
  destruct (partition_cut_at_first _ _ _ _ Hcut) as [m ->]. done.
Qed.

(** ** Which exceptions the steps of [parse] raise *)

Lemma lookup_mode_not_port cls mode p :
  lookup_mode cls mode <> Raise (InvalidPort p).
Proof.
  unfold lookup_mode. destruct (types !! lower mode); [|done].
  by destruct (negb _).
Qed.

Lemma construct_not_port r c spec d host port p :
  construct r c spec d host port <> Raise (InvalidPort p).
Proof.
  unfold construct, post_init, resolve, _check_empty, bind.
  destruct c; repeat case_match; congruence.
Qed.

Lemma construct_fields r c spec d host port i :
  construct r c spec d host port = Ok i ->
  cls i = c /\ full_spec i = spec /\ data i = d /\
  custom_listen_host i = host /\ custom_listen_port i = port.
Proof.
  unfold construct. destruct (post_init r c d) as [[sch addr]|e]; simpl; [|done].
  by intros [= <-].
Qed.

Lemma parse_listen_at_empty : parse_listen_at "" = Ok (None, None).
Proof. done. Qed.

Lemma parse_listen_at_nonempty listen_at :
  listen_at <> "" ->
  parse_listen_at listen_at =
    let host := if contains ":" listen_at
                then Some (rpartition ":" listen_at).1.1 else None in
    match int (port_str_of listen_at) with
    | Some port =>
        if (port <? 0) || (65535 <? port)
        then Raise (InvalidPort (port_str_of listen_at))
        else Ok (host, Some port)
    | None => Raise (InvalidPort (port_str_of listen_at))
    end.
Proof.
  intros Hne. apply truthy_true in Hne.
  unfold parse_listen_at, port_str_of. rewrite Hne.
  destruct (contains ":" listen_at); [|done].
  by destruct (rpartition ":" listen_at) as [[h m] t].
Qed.

(** ** C1 and C10: where the spec is cut *)

(** C1, as amended: for every spec string that contains '@' and has a
    non-empty text before its last '@', [parse] cuts the spec at the last
    '@' into head and listen segment and the head at its first ':' into mode
    name and data.  In particular
    [parse("upstream:http://user@host:8080@127.0.0.1:9000")] succeeds with
    [custom_listen_host = "127.0.0.1"], [custom_listen_port = 9000] and
    [data = "http://user@host:8080"]. *)
Theorem C1_parse_cuts_at_last_at :
  (forall spec head listen_at mode data,
      cut_at_last "@" spec head listen_at ->
      head <> "" ->
      cut_at_first ":" head mode data ->
      split_spec spec = (mode, data, listen_at) /\
      forall r cls,
        parse r cls spec =
          (let* (host, port) := parse_listen_at listen_at in
           let* mode_cls := lookup_mode cls mode in
           construct r mode_cls spec data host port)) /\
  (forall r i,
      parse r ProxyModeCls "upstream:http://user@host:8080@127.0.0.1:9000" = Ok i ->
      cls i = UpstreamMode /\
      data i = "http://user@host:8080" /\
      custom_listen_host i = Some "127.0.0.1" /\
      custom_listen_port i = Some 9000) /\
  parse AddressSpec.resolve ProxyModeCls
      "upstream:http://user@host:8080@127.0.0.1:9000" =
    Ok {| cls := UpstreamMode;
          full_spec := "upstream:http://user@host:8080@127.0.0.1:9000";
          data := "http://user@host:8080";
          custom_listen_host := Some "127.0.0.1";
          custom_listen_port := Some 9000;
          scheme := Some "http";
          address := Some ("user@host", 8080) |}.
Proof.
  split; [|split].
  - intros spec head listen_at mode data [-> Hl] Hne Hcut.
    assert (Hs := split_spec_listen _ _ _ _ Hne Hl Hcut).
    split; [done|]. intros r cls. by apply parse_split.
  - intros r i.
    rewrite (parse_split r ProxyModeCls _ "upstream" "http://user@host:8080"
               "127.0.0.1:9000") by (by vm_compute).
    change (parse_listen_at "127.0.0.1:9000")
      with (@Ok (option string * option Z) (Some "127.0.0.1", Some 9000)).
    replace (lookup_mode ProxyModeCls "upstream") with (Ok UpstreamMode)
      by (by vm_compute).
    cbn [bind]. intros H. apply construct_fields in H. tauto.
  - by vm_compute.
Qed.

(** The hypotheses of C1 at ["regular@127.0.0.1:8080"]. *)
Lemma C1_parse_cuts_at_last_at_witness :
  split_spec "regular@127.0.0.1:8080" = ("regular", "", "127.0.0.1:8080").
Proof.
  apply (proj1 C1_parse_cuts_at_last_at "regular@127.0.0.1:8080" "regular"
           "127.0.0.1:8080" "regular" "").
  - split; reflexivity.
  - discriminate.
  - right. repeat split; reflexivity.
Defined.

(** C1 as it is written, for every spec with an '@', fails at ["@socks5"]:
    the text before the last '@' is empty, and [parse] takes ["socks5"] for
    the mode name and leaves the listen segment empty. *)
Lemma C1_counterexample_leading_at :
  ~ (forall spec head listen_at mode data,
        cut_at_last "@" spec head listen_at ->
        cut_at_first ":" head mode data ->
        split_spec spec = (mode, data, listen_at)).
Proof.
  intros H.
  specialize (H "@socks5" "" "socks5" "" "").
  discriminate H.
  - split; reflexivity.
  - right. repeat split; reflexivity.
Qed.

(** C10: when the text before the last '@' of the spec is empty, [parse]
    does not take that '@' for the separator of the listen address: the text
    after it is the head, cut at its first ':' into mode name and data, the
    listen segment is empty and [custom_listen_host] and
    [custom_listen_port] are unset.  [parse("@socks5")] is a [Socks5Mode]
    without a custom listen port, and no such spec fails with
    [InvalidPort]. *)
Theorem C10_leading_at_is_no_separator :
  (forall spec rest mode mdata,
      cut_at_last "@" spec "" rest ->
      cut_at_first ":" rest mode mdata ->
      split_spec spec = (mode, mdata, "") /\
      forall r cls,
        parse r cls spec =
          (let* mode_cls := lookup_mode cls mode in
           construct r mode_cls spec mdata None None) /\
        (forall p, parse r cls spec <> Raise (InvalidPort p)) /\
        (forall i, parse r cls spec = Ok i ->
                   data i = mdata /\
                   custom_listen_host i = None /\
                   custom_listen_port i = None)) /\
  (forall r, parse r ProxyModeCls "@socks5" =
             Ok {| cls := Socks5Mode; full_spec := "@socks5"; data := "";
                   custom_listen_host := None; custom_listen_port := None;
                   scheme := None; address := None |}) /\
  (forall r, parse r ProxyModeCls "@1234" = Raise UnknownMode).
Proof.
  split; [|split].
  - intros spec rest mode mdata [-> Hr] Hcut.
    change ("" ++ String "@" rest) with (String "@" rest).
    assert (Hs := split_spec_leading_at _ _ _ Hr Hcut).
    split; [done|]. intros r cls.
    assert (Hp := parse_split r cls _ _ _ _ Hs).
    rewrite parse_listen_at_empty in Hp. cbn [bind] in Hp.
    split; [done|]. rewrite Hp. split.
    + intros p. destruct (lookup_mode cls mode) as [mc|e] eqn:E; simpl.
      * apply construct_not_port.
      * intros [= ->]. by apply lookup_mode_not_port in E.
    + intros i. destruct (lookup_mode cls mode) as [mc|e]; simpl; [|done].
      intros H. apply construct_fields in H. tauto.
  - intros r. by vm_compute.
  - intros r. by vm_compute.
Qed.

(** The hypotheses of C10 at ["@dns:transparent"]. *)
Lemma C10_leading_at_is_no_separator_witness :
  split_spec "@dns:transparent" = ("dns", "transparent", "").
Proof.
  apply (proj1 C10_leading_at_is_no_separator "@dns:transparent"
           "dns:transparent" "dns" "transparent").
  - split; reflexivity.
  - left. split; reflexivity.
Defined.

(** ** What a successful [parse] returns *)

Lemma parse_Ok_inv r pc spec i :
  parse r pc spec = Ok i ->
  exists mode,
    split_spec spec = (mode, data i, listen_segment spec) /\
    parse_listen_at (listen_segment spec) =
      Ok (custom_listen_host i, custom_listen_port i) /\
    lookup_mode pc mode = Ok (cls i) /\
    full_spec i = spec /\
    post_init r (cls i) (data i) = Ok (scheme i, address i).
Proof.
  unfold listen_segment.
  destruct (split_spec spec) as [[mode d] la] eqn:Hs.
  rewrite (parse_split r pc _ _ _ _ Hs). simpl.
  destruct (parse_listen_at la) as [[host port]|e] eqn:Hl; simpl; [|done].
  destruct (lookup_mode pc mode) as [mc|e] eqn:Hm; simpl; [|done].
  unfold construct.
  destruct (post_init r mc d) as [[sch addr]|e] eqn:Hp; simpl; [|done].
  intros [= <-]. simpl. by exists mode.
Qed.

(** ** C4: the listen port *)

(** The port string, read off the spec: it is what follows the last ':' of
    the listen segment, or the whole segment when that has no ':'. *)
Lemma port_str_of_cut listen_at host p :
  cut_at_last ":" listen_at host p -> port_str_of listen_at = p.
Proof.
  intros [-> Hp]. unfold port_str_of.
  rewrite contains_app, contains_cons_same, orb_true_r.
  by rewrite rpartition_app.
Qed.

Lemma port_str_of_plain listen_at :
  contains ":" listen_at = false -> port_str_of listen_at = listen_at.
Proof. intros H. unfold port_str_of. by rewrite H. Qed.




(** A plain run of digits is read by [int] as the number it spells. *)
Lemma scan_digits_decimal s acc v :
  AddressSpec.digits_value s acc = Some v ->
  scan_digits s false acc = Some (v, false, "").
Proof.
  revert acc. induction s as [|a s IH]; intros acc; simpl.
  - by intros [= ->].
  - destruct (is_digit a); [apply IH|done].
Qed.

Lemma is_digit_plain a :
  is_digit a = true ->
  is_space a = false /\ split_sign (String a "") = (false, String a "").
Proof.
  destruct a as [[] [] [] [] [] [] [] []]; intros H; try discriminate H;
    split; reflexivity.
Qed.

Lemma count_digits_decimal s acc v :
  AddressSpec.digits_value s acc = Some v ->
  count_digits s = Z.of_nat (String.length s).
Proof.
  revert acc. induction s as [|a s IH]; intros acc; [done|].
  cbn [AddressSpec.digits_value count_digits String.length].
  destruct (is_digit a); [|done]. intros H. rewrite (IH _ H). lia.
Qed.

(** Up to the limit on the number of digits. *)
Lemma int_decimal s v :
  AddressSpec.decimal s = Some v ->
  int s = if int_max_str_digits <? Z.of_nat (String.length s)
          then None else Some v.
Proof.
  destruct s as [|a s]; [done|]. unfold AddressSpec.decimal. intros Hd.
  assert (Ha : is_digit a = true).
  { simpl in Hd. by destruct (is_digit a). }
  destruct (is_digit_plain a Ha) as [Hsp Hsg].
  unfold int. cbn [lstrip]. rewrite Hsp.
  assert (Hsg' : split_sign (String a s) = (false, String a s)).
  { destruct a as [[] [] [] [] [] [] [] []]; try discriminate Hsg; reflexivity. }
  rewrite Hsg', Ha, (scan_digits_decimal _ _ _ Hd).
  rewrite (count_digits_decimal _ _ _ Hd). cbn [all_space].
  by destruct (int_max_str_digits <? _).
Qed.

(** ** C5: an empty listen host *)

(** C5, as amended: when the listen segment has an empty host part before
    its last ':' (as in [parse("regular@:443")]), [custom_listen_host] is
    the empty string, not [None]: [listen_host(default)] returns [""] with
    and without a default. *)
Theorem C5_empty_listen_host_is_kept :
  forall r pc spec p i,
    cut_at_last ":" (listen_segment spec) "" p ->
    parse r pc spec = Ok i ->
    custom_listen_host i = Some "" /\
    forall default, listen_host i default = "".
Proof.
  intros r pc spec p i [Hla Hp] Hi.
  destruct (parse_Ok_inv _ _ _ _ Hi) as (mode & _ & Hl & _).
  rewrite Hla in Hl. change ("" ++ String ":" p) with (String ":" p) in Hl.
  rewrite parse_listen_at_nonempty in Hl by done.
  rewrite contains_cons_same in Hl.
  change (String ":" p) with ("" ++ String ":" p) in Hl.
  unfold port_str_of in Hl. rewrite contains_app, contains_cons_same in Hl.
  simpl orb in Hl. cbv zeta in Hl. rewrite rpartition_app in Hl by done.
  simpl in Hl.
  assert (Hh : custom_listen_host i = Some "").
  { destruct (int p) as [n|]; [|done].
    destruct ((n <? 0) || (65535 <? n)); [done|]. by injection Hl as <- _. }
  split; [done|]. intros default. unfold listen_host. by rewrite Hh.
Qed.

(** The hypotheses of C5 at ["regular@:443"]. *)
Lemma C5_empty_listen_host_is_kept_witness :
  custom_listen_host
    {| cls := RegularMode; full_spec := "regular@:443"; data := "";
       custom_listen_host := Some ""; custom_listen_port := Some 443;
       scheme := None; address := None |} = Some "" /\
  forall default,
    listen_host
      {| cls := RegularMode; full_spec := "regular@:443"; data := "";
         custom_listen_host := Some ""; custom_listen_port := Some 443;
         scheme := None; address := None |} default = "".
Proof.
  apply (C5_empty_listen_host_is_kept AddressSpec.resolve ProxyModeCls
           "regular@:443" "443").
  - split; reflexivity.
  - reflexivity.
Defined.

(** C5 as it is written fails at ["regular@:443"]: with the default
    ["127.0.0.1"], [listen_host] returns [""] and not the default. *)
Lemma C5_counterexample_default_ignored :
  ~ (forall r pc spec p i d,
        cut_at_last ":" (listen_segment spec) "" p ->
        parse r pc spec = Ok i ->
        listen_host i (Some d) = d).
Proof.
  intros H.
  specialize (H AddressSpec.resolve ProxyModeCls "regular@:443" "443"
                {| cls := RegularMode; full_spec := "regular@:443"; data := "";
                   custom_listen_host := Some ""; custom_listen_port := Some 443;
                   scheme := None; address := None |} "127.0.0.1").
  discriminate H.
  - split; reflexivity.
  - reflexivity.
Qed.

(** ** C8: the listen address *)

(** C8: [listen_port(default)] returns [custom_listen_port] if it is set,
    else [default] if one is given, else the [default_port] of the class;
    [listen_host(default)] returns [custom_listen_host] if it is set, else
    [default] if one is given, else [""].  Both are functions of the
    instance and the default alone.  [parse("socks5")] has
    [listen_port() = 1080]; [parse("regular@1234")] has
    [listen_port() = 1234] and [listen_host() = ""]. *)
Theorem C8_listen_address_precedence :
  (forall self default p,
      custom_listen_port self = Some p -> listen_port self default = p) /\
  (forall self d,
      custom_listen_port self = None -> listen_port self (Some d) = d) /\
  (forall self,
      custom_listen_port self = None ->
      listen_port self None = default_port (cls self)) /\
  (forall self default h,
      custom_listen_host self = Some h -> listen_host self default = h) /\
  (forall self d,
      custom_listen_host self = None -> listen_host self (Some d) = d) /\
  (forall self,
      custom_listen_host self = None -> listen_host self None = "") /\
  (forall r, exists i,
      parse r ProxyModeCls "socks5" = Ok i /\
      cls i = Socks5Mode /\ listen_port i None = 1080) /\
  (forall r, exists i,
      parse r ProxyModeCls "regular@1234" = Ok i /\
      cls i = RegularMode /\
      listen_port i None = 1234 /\ listen_host i None = "").
Proof.
  unfold listen_port, listen_host. split_and!.
  - by intros self default p ->.
  - by intros self d ->.
  - by intros self ->.
  - by intros self default h ->.
  - by intros self d ->.
  - by intros self ->.
  - intros r. eexists. by vm_compute.
  - intros r. eexists. by vm_compute.
Qed.

(** The hypotheses of C8 at the instance that ["regular@1234"] parses to. *)
Lemma C8_listen_address_precedence_witness :
  listen_port
    {| cls := RegularMode; full_spec := "regular@1234"; data := "";
       custom_listen_host := None; custom_listen_port := Some 1234;
       scheme := None; address := None |} (Some 8080) = 1234.
Proof.
  apply (proj1 C8_listen_address_precedence). reflexivity.
Defined.

(** ** C9 and C2: the state codec *)

(** C9: [set_state(state)] fails with [FrozenStateViolation] if and only if
    [state] differs from the [full_spec] of the receiver; whether it fails
    or not, the receiver is left as it was; with [state] equal to
    [full_spec] it returns without an effect. *)
Theorem C9_set_state_frozen :
  forall self state,
    (set_state self state).2 = self /\
    ((set_state self state).1 = Raise FrozenStateViolation <->
     state <> full_spec self) /\
    set_state self (full_spec self) = (Ok tt, self).
Proof.
  intros self state. unfold set_state.
  rewrite String.eqb_refl. simpl.
  destruct (String.eqb_spec state (full_spec self)); simpl; naive_solver.
Qed.

(** C9 at the instance of ["regular"] and the state ["socks5"]. *)
Lemma C9_set_state_frozen_witness :
  (set_state
     {| cls := RegularMode; full_spec := "regular"; data := "";
        custom_listen_host := None; custom_listen_port := None;
        scheme := None; address := None |} "socks5").1 =
    Raise FrozenStateViolation.
Proof.
  apply (proj1 (proj2 (C9_set_state_frozen _ "socks5"))). discriminate.
Defined.

Lemma parse_full_spec r pc spec i : parse r pc spec = Ok i -> full_spec i = spec.
Proof. intros H. apply parse_Ok_inv in H. by destruct H as (mode & _ & _ & _ & ? & _). Qed.

(** C2: for every spec [s] that [parse] accepts, [parse(s).get_state()] is
    [s], [parse(parse(s).get_state())] equals [parse(s)], and
    [from_state(s)] is [ProxyMode.parse(s)], whatever class it is called
    on, both for the body of [parse] and through its cache. *)
Theorem C2_state_round_trip :
  forall r pc s i,
    parse r pc s = Ok i ->
    get_state i = s /\
    parse r pc (get_state i) = Ok i /\
    (forall c, from_state r c s = parse r ProxyModeCls s) /\
    (forall c st, from_state_cached r c s st = parse_cached r ProxyModeCls s st).
Proof.
  intros r pc s i H. unfold get_state.
  rewrite (parse_full_spec _ _ _ _ H). done.
Qed.

(** The hypothesis of C2 at ["socks5@1080"]. *)
Lemma C2_state_round_trip_witness :
  get_state
    {| cls := Socks5Mode; full_spec := "socks5@1080"; data := "";
       custom_listen_host := None; custom_listen_port := Some 1080;
       scheme := None; address := None |} = "socks5@1080".
Proof.
  apply (C2_state_round_trip AddressSpec.resolve ProxyModeCls "socks5@1080").
  reflexivity.
Defined.

(** ** C6 and C7: the validators that resolve an address *)

(** C6: the validator of [DnsMode] accepts the data [""], ["resolve-local"]
    and ["transparent"] without a call of the resolver; for other data it
    cuts at the first ':', fails with [InvalidDnsMode] unless the leading
    token is ["reverse"], hands the rest to the resolver with the default
    scheme ["dns"], and rejects a resolved scheme other than ["dns"];
    [resolve_local] holds iff the data is [""] or ["resolve-local"].
    [parse("dns")] is a [DnsMode] with [resolve_local]; and
    [parse("dns:reverse:dns://1.1.1.1:53")] has the scheme ["dns"], the
    address [("1.1.1.1", 53)] and no [resolve_local]. *)
Theorem C6_dns_validator :
  (forall r d,
      d ∈ [""; "resolve-local"; "transparent"] ->
      post_init r DnsMode d = Ok (None, None)) /\
  (forall r d m server,
      d ∉ [""; "resolve-local"; "transparent"] ->
      cut_at_first ":" d m server ->
      (m <> "reverse" -> post_init r DnsMode d = Raise InvalidDnsMode) /\
      (m = "reverse" ->
       post_init r DnsMode d =
         match r server "dns" with
         | inl msg => Raise (ResolverError msg)
         | inr (sch, addr) =>
             if decide (sch = "dns") then Ok (Some sch, Some addr)
             else Raise (InvalidScheme DnsMode)
         end)) /\
  (forall self,
      resolve_local self = true <->
      data self = "" \/ data self = "resolve-local") /\
  (forall r, exists i,
      parse r ProxyModeCls "dns" = Ok i /\
      cls i = DnsMode /\ resolve_local i = true /\
      scheme i = None /\ address i = None) /\
  (forall r,
      r "dns://1.1.1.1:53" "dns" = inr ("dns", ("1.1.1.1", 53)) ->
      exists i,
        parse r ProxyModeCls "dns:reverse:dns://1.1.1.1:53" = Ok i /\
        cls i = DnsMode /\ scheme i = Some "dns" /\
        address i = Some ("1.1.1.1", 53) /\ resolve_local i = false) /\
  (exists i,
      parse AddressSpec.resolve ProxyModeCls "dns:reverse:dns://1.1.1.1:53" = Ok i /\
      cls i = DnsMode /\ scheme i = Some "dns" /\
      address i = Some ("1.1.1.1", 53) /\ resolve_local i = false).
Proof.
  split_and!.
  - intros r d Hd. unfold post_init. by rewrite bool_decide_eq_true_2.
  - intros r d m server Hd Hcut. unfold post_init.
    rewrite bool_decide_eq_false_2 by done.
    destruct (partition_cut_at_first _ _ _ _ Hcut) as [sep ->].
    split.
    + intros Hm. apply String.eqb_neq in Hm. by rewrite Hm.
    + intros ->. simpl. unfold resolve.
      destruct (r server "dns") as [msg|[sch addr]]; simpl; [done|].
      destruct (String.eqb_spec sch "dns"); by case_decide.
  - intros self. unfold resolve_local. rewrite bool_decide_eq_true.
    rewrite !elem_of_cons, elem_of_nil. tauto.
  - intros r. eexists. by vm_compute.
  - intros r Hr. eexists.
    rewrite (parse_split r ProxyModeCls _ "dns" "reverse:dns://1.1.1.1:53" "")
      by (by vm_compute).
    rewrite parse_listen_at_empty. cbn [bind].
    replace (lookup_mode ProxyModeCls "dns") with (Ok DnsMode) by (by vm_compute).
    cbn [bind]. unfold construct, post_init.
    replace (bool_decide ("reverse:dns://1.1.1.1:53" ∈
                            [""; "resolve-local"; "transparent"]))
      with false by (by vm_compute).
    change (partition ":" "reverse:dns://1.1.1.1:53")
      with ("reverse", ":", "dns://1.1.1.1:53").
    replace (String.eqb "reverse" "reverse") with true by (by vm_compute).
    cbn [negb]. unfold resolve. rewrite Hr. by vm_compute.
  - eexists. by vm_compute.
Qed.

(** The hypotheses of C6 at the data ["resolve-local"]. *)
Lemma C6_dns_validator_witness :
  post_init AddressSpec.resolve DnsMode "resolve-local" = Ok (None, None).
Proof.
  apply (proj1 C6_dns_validator AddressSpec.resolve "resolve-local").
  apply (bool_decide_unpack _). vm_compute. exact I.
Defined.

(** C7: the validator of [UpstreamMode] hands the data to the resolver with
    the default scheme ["http"] and fails with [InvalidScheme] unless the
    resolved scheme is ["http"] or ["https"]; that of [ReverseMode] uses
    the default scheme ["https"] and accepts ["http"], ["https"], ["tcp"]
    and ["tls"]; an accepted result is stored as it is in [scheme] and
    [address].  [parse("upstream:ftp://host:21")] fails with
    [InvalidScheme]. *)
Theorem C7_upstream_reverse_validators :
  (forall r d,
      post_init r UpstreamMode d =
        match r d "http" with
        | inl msg => Raise (ResolverError msg)
        | inr (sch, addr) =>
            if bool_decide (sch ∈ ["http"; "https"])
            then Ok (Some sch, Some addr)
            else Raise (InvalidScheme UpstreamMode)
        end) /\
  (forall r d,
      post_init r ReverseMode d =
        match r d "https" with
        | inl msg => Raise (ResolverError msg)
        | inr (sch, addr) =>
            if bool_decide (sch ∈ ["http"; "https"; "tcp"; "tls"])
            then Ok (Some sch, Some addr)
            else Raise (InvalidScheme ReverseMode)
        end) /\
  (forall r pc spec i,
      parse r pc spec = Ok i ->
      cls i = UpstreamMode ->
      exists sch addr,
        r (data i) "http" = inr (sch, addr) /\
        scheme i = Some sch /\ address i = Some addr /\
        sch ∈ ["http"; "https"]) /\
  (forall r pc spec i,
      parse r pc spec = Ok i ->
      cls i = ReverseMode ->
      exists sch addr,
        r (data i) "https" = inr (sch, addr) /\
        scheme i = Some sch /\ address i = Some addr /\
        sch ∈ ["http"; "https"; "tcp"; "tls"]) /\
  (forall r addr,
      r "ftp://host:21" "http" = inr ("ftp", addr) ->
      parse r ProxyModeCls "upstream:ftp://host:21" =
        Raise (InvalidScheme UpstreamMode)) /\
  parse AddressSpec.resolve ProxyModeCls "upstream:ftp://host:21" =
    Raise (InvalidScheme UpstreamMode).
Proof.
  assert (Hup : forall r d,
      post_init r UpstreamMode d =
        match r d "http" with
        | inl msg => Raise (ResolverError msg)
        | inr (sch, addr) =>
            if bool_decide (sch ∈ ["http"; "https"])
            then Ok (Some sch, Some addr)
            else Raise (InvalidScheme UpstreamMode)
        end).
  { intros r d. unfold post_init, resolve.
    destruct (r d "http") as [msg|[sch addr]]; simpl; [done|].
    destruct (String.eqb_spec sch "http") as [->|H1]; [done|].
    destruct (String.eqb_spec sch "https") as [->|H2]; [done|].
    simpl. rewrite bool_decide_eq_false_2; [done|].
    rewrite !elem_of_cons, elem_of_nil. tauto. }
  assert (Hrev : forall r d,
      post_init r ReverseMode d =
        match r d "https" with
        | inl msg => Raise (ResolverError msg)
        | inr (sch, addr) =>
            if bool_decide (sch ∈ ["http"; "https"; "tcp"; "tls"])
            then Ok (Some sch, Some addr)
            else Raise (InvalidScheme ReverseMode)
        end).
  { intros r d. unfold post_init, resolve.
    destruct (r d "https") as [msg|[sch addr]]; simpl; [done|].
    destruct (String.eqb_spec sch "http") as [->|H1]; [done|].
    destruct (String.eqb_spec sch "https") as [->|H2]; [done|].
    destruct (String.eqb_spec sch "tcp") as [->|H3]; [done|].
    destruct (String.eqb_spec sch "tls") as [->|H4]; [done|].
    simpl. rewrite bool_decide_eq_false_2; [done|].
    rewrite !elem_of_cons, elem_of_nil. tauto. }
  split_and!; [done|done|..].
  - intros r pc spec i Hi Hc.
    destruct (parse_Ok_inv _ _ _ _ Hi) as (mode & _ & _ & _ & _ & Hp).
    rewrite Hc, Hup in Hp.
    destruct (r (data i) "http") as [msg|[sch addr]]; [done|].
    case_bool_decide; [|done]. injection Hp as <- <-. by exists sch, addr.
  - intros r pc spec i Hi Hc.
    destruct (parse_Ok_inv _ _ _ _ Hi) as (mode & _ & _ & _ & _ & Hp).
    rewrite Hc, Hrev in Hp.
    destruct (r (data i) "https") as [msg|[sch addr]]; [done|].
    case_bool_decide; [|done]. injection Hp as <- <-. by exists sch, addr.
  - intros r addr Hr.
    rewrite (parse_split r ProxyModeCls _ "upstream" "ftp://host:21" "")
      by (by vm_compute).
    rewrite parse_listen_at_empty. cbn [bind].
    replace (lookup_mode ProxyModeCls "upstream") with (Ok UpstreamMode)
      by (by vm_compute).
    cbn [bind]. unfold construct. by rewrite Hup, Hr.
  - by vm_compute.
Qed.

(** The hypotheses of C7 at ["upstream:https://proxy:3128"]. *)
Lemma C7_upstream_reverse_validators_witness :
  exists sch addr,
    AddressSpec.resolve "https://proxy:3128" "http" = inr (sch, addr) /\
    Some "https" = Some sch /\ Some ("proxy", 3128) = Some addr /\
    sch ∈ ["http"; "https"].
Proof.
  apply (proj1 (proj2 (proj2 C7_upstream_reverse_validators))
           AddressSpec.resolve ProxyModeCls "upstream:https://proxy:3128"
           {| cls := UpstreamMode; full_spec := "upstream:https://proxy:3128";
              data := "https://proxy:3128";
              custom_listen_host := None; custom_listen_port := None;
              scheme := Some "https"; address := Some ("proxy", 3128) |}).
  - reflexivity.
  - reflexivity.
Defined.

(** ** C3: the cache *)

Section CacheFacts.

Variable r : string -> string -> string + ServerSpec.

Implicit Types (pc : parse_cls) (form : call_form) (spec : string).
Implicit Types (st : store) (o : obj) (k : parse_cls * call_form * string).
Implicit Types (cs : store * list (parse_cls * call_form * string)).

(** The wrapped function returns what the body of [parse] gives, with a new
    identity. *)
Lemma parse_body_parse pc spec n :
  match parse r pc spec with
  | Ok v => parse_body r pc spec n = (Ok (mkObj n v), S n)
  | Raise e => (parse_body r pc spec n).1 = Raise e
  end.
Proof.
  unfold parse_body, parse.
  destruct (parse_args pc spec) as [[[[mc d] host] port]|e]; simpl; [|done].
  by destruct (construct r mc spec d host port).
Qed.



Lemma parse_call_hit pc form spec st o :
  cache st !! (pc, form, spec) = Some o ->
  parse_call r form pc spec st = (Ok o, st).
Proof. intros H. unfold parse_call. by rewrite H. Qed.

(** On a miss the call returns what the body returns, with a new
    identity. *)
Lemma parse_call_miss pc form spec st :
  cache st !! (pc, form, spec) = None ->
  match parse r pc spec with
  | Ok v =>
      parse_call r form pc spec st =
        (Ok (mkObj (constructed st) v),
         mkStore (<[(pc, form, spec) := mkObj (constructed st) v]> (cache st))
                 (S (constructed st)))
  | Raise e =>
      (parse_call r form pc spec st).1 = Raise e /\
      cache (parse_call r form pc spec st).2 = cache st
  end.
Proof.
  intros H. unfold parse_call. rewrite H.
  assert (Hb := parse_body_parse pc spec (constructed st)).
  destruct (parse r pc spec) as [v|e].
  - by rewrite Hb.
  - destruct (parse_body r pc spec (constructed st)) as [res n].
    simpl in Hb. by subst res.
Qed.

Lemma parse_cached_hit pc spec st o :
  cache st !! (pc, Positional, spec) = Some o ->
  parse_cached r pc spec st = (Ok o, st).
Proof. apply parse_call_hit. Qed.

Lemma parse_cached_miss pc spec st :
  cache st !! (pc, Positional, spec) = None ->
  match parse r pc spec with
  | Ok v =>
      parse_cached r pc spec st =
        (Ok (mkObj (constructed st) v),
         mkStore (<[(pc, Positional, spec) := mkObj (constructed st) v]>
                    (cache st))
                 (S (constructed st)))
  | Raise e =>
      (parse_cached r pc spec st).1 = Raise e /\
      cache (parse_cached r pc spec st).2 = cache st
  end.
Proof. apply parse_call_miss. Qed.

(** After a call that returned, the key holds the returned object. *)
Lemma parse_call_Ok_lookup pc form spec st o st1 :
  parse_call r form pc spec st = (Ok o, st1) ->
  cache st1 !! (pc, form, spec) = Some o.
Proof.
  destruct (cache st !! (pc, form, spec)) as [o'|] eqn:E.
  - rewrite (parse_call_hit _ _ _ _ _ E). by intros [= <- <-].
  - assert (Hm := parse_call_miss _ _ _ _ E).
    destruct (parse r pc spec) as [v|e].
    + rewrite Hm. intros [= <- <-]. simpl. apply lookup_insert_eq.
    + destruct Hm as [Hm _]. intros Heq. rewrite Heq in Hm. done.
Qed.



(** Calls by position are calls. *)
Lemma run_as_calls calls st :
  run r calls st =
    run_calls r ((fun c => (c.1, Positional, c.2)) <$> calls) st.
Proof.
  revert st. induction calls as [|[pc spec] calls IH]; intros st; [done|].
  simpl. apply IH.
Qed.

Lemma cache_sound_empty : cache_sound r empty_store.
Proof. intros pc form spec o. simpl. by rewrite lookup_empty. Qed.

Lemma cache_sound_store k res n st :
  cache_sound r st -> sound_return r k res ->
  cache_sound r (store_result k res n st).
Proof.
  intros Hs Hr. destruct res as [o|e]; simpl; [|done].
  intros pc form spec o'. simpl.
  destruct (decide (k = (pc, form, spec))) as [->|Hne].
  - rewrite lookup_insert_eq. by intros [= <-].
  - rewrite lookup_insert_ne by done. apply Hs.
Qed.

Lemma parse_body_sound k n : sound_return r k (parse_body r k.1.1 k.2 n).1.
Proof.
  assert (Hb := parse_body_parse k.1.1 k.2 n). unfold sound_return.
  destruct (parse r k.1.1 k.2) as [v|e].
  - by rewrite Hb.
  - by rewrite Hb.
Qed.

Lemma cache_sound_step pc form spec st :
  cache_sound r st -> cache_sound r (parse_call r form pc spec st).2.
Proof.
  intros Hs. unfold parse_call.
  destruct (cache st !! (pc, form, spec)) as [o'|] eqn:E; [done|].
  assert (Hb := parse_body_sound (pc, form, spec) (constructed st)).
  cbn [fst snd] in Hb.
  destruct (parse_body r pc spec (constructed st)) as [res n].
  cbn [fst snd] in *. by apply cache_sound_store.
Qed.

Lemma cache_sound_run_calls calls st :
  cache_sound r st -> cache_sound r (run_calls r calls st).
Proof.
  revert st. induction calls as [|[[pc form] spec] calls IH]; intros st Hs;
    [done|].
  simpl. apply IH. by apply cache_sound_step.
Qed.

Lemma cache_sound_run calls st :
  cache_sound r st -> cache_sound r (run r calls st).
Proof. rewrite run_as_calls. apply cache_sound_run_calls. Qed.

(** On a sound store the cached call and the body agree. *)
Lemma parse_call_agrees pc form spec st :
  cache_sound r st ->
  match (parse_call r form pc spec st).1 with
  | Ok o => parse r pc spec = Ok (obj_val o)
  | Raise e => parse r pc spec = Raise e
  end.
Proof.
  intros Hs.
  destruct (cache st !! (pc, form, spec)) as [o'|] eqn:E.
  - rewrite (parse_call_hit _ _ _ _ _ E). simpl. by apply Hs in E.
  - assert (Hm := parse_call_miss _ _ _ _ E).
    destruct (parse r pc spec) as [v|e].
    + by rewrite Hm.
    + destruct Hm as [-> _]. done.
Qed.





(** *** Overlapping calls *)


(** A step keeps the cache sound, and what it returns is what the body of
    [parse] gives. *)
Lemma step_sound ev cs :
  cache_sound r cs.1 ->
  cache_sound r (step r ev cs).2.1 /\
  forall res, (step r ev cs).1 = Some res -> sound_return r (event_key ev) res.
Proof.
  intros Hs. destruct ev as [k|k]; simpl.
  - unfold enter. destruct (cache cs.1 !! k) as [o|] eqn:E; simpl.
    + split; [done|]. intros res [= <-]. destruct k as [[pc form] spec].
      by apply Hs in E.
    + by split.
  - unfold leave. case_bool_decide; [|by split].
    assert (Hb := parse_body_sound k (constructed cs.1)).
    destruct (parse_body r k.1.1 k.2 (constructed cs.1)) as [res n].
    simpl in *. split.
    + by apply cache_sound_store.
    + by intros res' [= <-].
Qed.

Lemma exec_sound evs cs :
  cache_sound r cs.1 ->
  cache_sound r (exec r evs cs).2.1 /\
  forall k res, (k, res) ∈ (exec r evs cs).1 -> sound_return r k res.
Proof.
  revert cs. induction evs as [|ev evs IH]; intros cs Hs; simpl.
  - split; [done|]. intros k res H. by apply elem_of_nil in H.
  - destruct (step_sound ev cs Hs) as [Hs1 Hret].
    destruct (step r ev cs) as [ret cs1]. simpl in *.
    destruct (IH cs1 Hs1) as [Hs2 Hlog].
    destruct (exec r evs cs1) as [log cs2]. simpl in *.
    split; [done|]. intros k res.
    destruct ret as [res0|]; [|by apply Hlog].
    intros Hin. apply elem_of_cons in Hin as [Heq|Hin]; [|by apply Hlog].
    injection Heq as -> ->. by apply Hret.
Qed.




End CacheFacts.




(** The same spec on the same class, once by position and once by keyword:
    two instances. *)
Lemma keyword_call_is_another_key :
  forall r,
    exists o1 o2 st1 st2,
      parse_call r Positional ProxyModeCls "regular" empty_store = (Ok o1, st1) /\
      parse_call r Keyword ProxyModeCls "regular" st1 = (Ok o2, st2) /\
      obj_id o1 = 0%nat /\ obj_id o2 = 1%nat /\ constructed st2 = 2%nat.
Proof. intros r. do 4 eexists. by vm_compute. Qed.

(** Two calls of [ProxyMode.parse("regular")] that overlap: both miss, both
    construct, the second to finish overwrites the entry of the first, and
    the callers hold two instances. *)
Lemma racing_misses_make_two_instances :
  forall r,
    let k := (ProxyModeCls, Positional, "regular") in
    exists o1 o2 cs,
      exec r [Enter k; Enter k; Leave k; Leave k] (empty_store, []) =
        ([(k, Ok o1); (k, Ok o2)], cs) /\
      obj_id o1 = 0%nat /\ obj_id o2 = 1%nat /\
      cache cs.1 !! k = Some o2.
Proof. intros r. do 3 eexists. by vm_compute. Qed.


(** * Further properties *)

(** ** The registry and the lookup of the mode name *)

Lemma register_all_fold l :
  register_all l = fold_left register_step l (Some ∅).
Proof. reflexivity. Qed.

Lemma register_step_None l : fold_left register_step l None = None.
Proof. by induction l. Qed.

Lemma register_from_ok l (t0 : gmap string mode_cls) :
  is_Some (fold_left register_step l (Some t0)) <->
  NoDup (type <$> l) /\ forall c, c ∈ l -> t0 !! type c = None.
Proof.
  revert t0. induction l as [|a l IH]; intros t0; simpl.
  - split; [intros _|by eauto]. split; [constructor|].
    intros c Hc. by apply elem_of_nil in Hc.
  - unfold init_subclass. destruct (t0 !! type a) as [c'|] eqn:Ea.
    + rewrite register_step_None. split; [by intros [? ?]|].
      intros [_ H]. specialize (H a (list_elem_of_here _ _)). congruence.
    + rewrite IH, NoDup_cons. split.
      * intros [Hnd Hfresh]. split_and!; [|done|].
        -- intros (c & Hc1 & Hc2)%list_elem_of_fmap.
           specialize (Hfresh c Hc2). by rewrite Hc1, lookup_insert_eq in Hfresh.
        -- intros c [->|Hc]%elem_of_cons; [done|].
           specialize (Hfresh c Hc).
           apply lookup_insert_None in Hfresh. tauto.
      * intros [[Hna Hnd] Hfresh]. split; [done|]. intros c Hc.
        apply lookup_insert_None. split.
        -- apply Hfresh. by right.
        -- intros Heq. apply Hna, list_elem_of_fmap. by exists c.
Qed.

Lemma register_from_lookup l (t0 t : gmap string mode_cls) s c :
  fold_left register_step l (Some t0) = Some t ->
  t !! s = Some c <-> t0 !! s = Some c \/ (c ∈ l /\ type c = s).
Proof.
  revert t0. induction l as [|a l IH]; intros t0; simpl.
  - intros [= ->]. split; [by left|]. intros [?|[H _]]; [done|].
    by apply elem_of_nil in H.
  - unfold init_subclass. destruct (t0 !! type a) as [c'|] eqn:Ea.
    + by rewrite register_step_None.
    + intros H. rewrite (IH _ H), lookup_insert. case_decide as Hd.
      * subst s. rewrite Ea. split.
        -- intros [[= <-]|[Hc Ht]]; right; split; try done; [by left|by right].
        -- intros [?|[[->|Hc]%elem_of_cons Ht]]; [done|by left|by right].
      * split.
        -- intros [?|[Hc Ht]]; [by left|]. right. split; [by right|done].
        -- intros [?|[[->|Hc]%elem_of_cons Ht]]; [by left|done|by right].
Qed.

(** X1: the loading of the module, one [__init_subclass__] per class
    statement, passes every [assert] if and only if no two of the classes
    have the same type name; the registry then holds, under each type name,
    the class of that name, and nothing else. *)
Theorem X1_registration_needs_distinct_names :
  forall l,
    (is_Some (register_all l) <-> NoDup (type <$> l)) /\
    (forall t, register_all l = Some t ->
               forall s c, t !! s = Some c <-> c ∈ l /\ type c = s).
Proof.
  intros l. rewrite register_all_fold. split.
  - rewrite register_from_ok. split; [tauto|]. intros H. split; [done|].
    intros c _. apply lookup_empty.
  - intros t Ht s c. rewrite (register_from_lookup _ _ _ _ _ Ht), lookup_empty.
    split; [by intros [?|?]|by right].
Qed.

Lemma types_lookup s c : types !! s = Some c <-> s = type c.
Proof.
  assert (H := registry_built). rewrite register_all_fold in H.
  rewrite (register_from_lookup _ _ _ _ _ H), lookup_empty. split.
  - by intros [?|[_ <-]].
  - intros ->. right. split; [|done].
    apply (bool_decide_unpack _). by destruct c.
Qed.

(** X1 at the classes of the module. *)
Lemma X1_registration_needs_distinct_names_witness :
  types !! "dns" = Some DnsMode <-> DnsMode ∈ subclasses /\ type DnsMode = "dns".
Proof.
  apply (proj2 (X1_registration_needs_distinct_names subclasses) types).
  vm_compute. reflexivity.
Defined.

Lemma types_lookup_None s : types !! s = None <-> forall c, s <> type c.
Proof.
  split.
  - intros H c ->. by rewrite (proj2 (types_lookup _ c) eq_refl) in H.
  - intros H. destruct (types !! s) as [c|] eqn:E; [|done].
    apply types_lookup in E. by destruct (H c).
Qed.

Lemma type_inj c c' : type c = type c' -> c = c'.
Proof. intros H. destruct c, c'; try done; by vm_compute in H. Qed.

Lemma lookup_mode_Ok pc m c :
  lookup_mode pc m = Ok c <-> lower m = type c /\ issubclass c pc = true.
Proof.
  unfold lookup_mode. destruct (types !! lower m) as [c'|] eqn:E.
  - apply types_lookup in E.
    destruct (issubclass c' pc) eqn:Es; simpl; split.
    + by intros [= <-].
    + intros [Hl _]. rewrite E in Hl. f_equal. by apply type_inj.
    + done.
    + intros [Hl Hs]. rewrite E in Hl. apply type_inj in Hl as ->. congruence.
  - split; [done|]. intros [Hl _].
    rewrite types_lookup_None in E. by destruct (E c).
Qed.

Lemma lookup_mode_unknown pc m :
  lookup_mode pc m = Raise UnknownMode <-> forall c, lower m <> type c.
Proof.
  rewrite <- types_lookup_None. unfold lookup_mode.
  destruct (types !! lower m) as [c'|]; [|done].
  by destruct (negb (issubclass c' pc)).
Qed.

Lemma lookup_mode_wrong pc m m' t :
  lookup_mode pc m = Raise (WrongModeCategory m' t) <->
  m' = m /\ exists c c', pc = SubCls c /\ t = type c /\
                         lower m = type c' /\ c' <> c.
Proof.
  unfold lookup_mode. destruct (types !! lower m) as [c'|] eqn:E.
  - apply types_lookup in E. destruct pc as [|c]; simpl.
    + split; [done|]. by intros (_ & c & c'' & ? & _).
    + case_bool_decide as Hd; simpl.
      * subst c'. split; [done|]. intros (_ & c0 & c'' & [= <-] & _ & Hl & Hne).
        rewrite E in Hl. by apply type_inj in Hl.
      * split.
        -- intros [= <- <-]. split; [done|]. by exists c, c'.
        -- intros (-> & c0 & c'' & [= <-] & -> & _). done.
  - rewrite types_lookup_None in E. split; [done|].
    intros (_ & c & c' & _ & _ & Hl & _). by destruct (E c').
Qed.

Lemma lookup_mode_errors pc m e :
  lookup_mode pc m = Raise e ->
  e = UnknownMode \/ exists t, e = WrongModeCategory m t.
Proof.
  unfold lookup_mode. destruct (types !! lower m) as [c'|]; [|by intros [= <-]; left].
  destruct (negb (issubclass c' pc)); [|done]. intros [= <-]. right. eauto.
Qed.

Lemma construct_errors r c spec d host port e :
  construct r c spec d host port = Raise e ->
  e = UnexpectedArguments \/ (exists c', e = InvalidScheme c') \/
  e = InvalidDnsMode \/ e = InvalidDtlsMode \/ exists msg, e = ResolverError msg.
Proof.
  unfold construct, post_init, resolve, _check_empty, bind.
  destruct c; repeat case_match; intros ?; simplify_eq;
    first [ by left
          | by right; left; eexists
          | by right; right; left
          | by right; right; right; left
          | by right; right; right; right; eexists ].
Qed.

(** X2: the registry holds exactly the seven type names, each with its own
    class; [parse] looks the mode name up in lower case, so a name is
    accepted on [ProxyMode] if and only if its lower case form is a type
    name, and it is unknown if and only if its lower case form is none. *)
Theorem X2_mode_lookup_case_insensitive :
  (forall s c, types !! s = Some c <-> s = type c) /\
  type <$> subclasses =
    ["regular"; "transparent"; "upstream"; "reverse"; "socks5"; "dns"; "dtls"] /\
  (forall m c, lookup_mode ProxyModeCls m = Ok c <-> lower m = type c) /\
  (forall pc m,
      lookup_mode pc m = Raise UnknownMode <-> forall c, lower m <> type c).
Proof.
  split_and!.
  - apply types_lookup.
  - reflexivity.
  - intros m c. rewrite lookup_mode_Ok. simpl. tauto.
  - apply lookup_mode_unknown.
Qed.

(** X2 at the mode name ["DNS"]. *)
Lemma X2_mode_lookup_case_insensitive_witness :
  lookup_mode ProxyModeCls "DNS" = Ok DnsMode.
Proof.
  apply (proj1 (proj2 (proj2 X2_mode_lookup_case_insensitive)) "DNS" DnsMode).
  reflexivity.
Defined.

(** ** The order of the checks of [parse] *)

Lemma parse_unfold r pc spec :
  parse r pc spec =
    (let* (host, port) := parse_listen_at (listen_segment spec) in
     let* mode_cls := lookup_mode pc (mode_name spec) in
     construct r mode_cls spec (mode_data spec) host port).
Proof.
  unfold listen_segment, mode_name, mode_data.
  destruct (split_spec spec) as [[m d] la] eqn:Hs. simpl.
  by apply parse_split.
Qed.

Lemma parse_listen_at_Raise la e :
  parse_listen_at la = Raise e ->
  e = InvalidPort (port_str_of la) /\ la <> "" /\
  ~ valid_port_str (port_str_of la).
Proof.
  destruct (decide (la = "")) as [->|Hne]; [done|].
  rewrite (parse_listen_at_nonempty _ Hne). unfold valid_port_str.
  destruct (int (port_str_of la)) as [n|] eqn:Hint.
  - destruct ((n <? 0) || (65535 <? n)) eqn:Hr; simpl; [|done].
    intros [= <-]. split_and!; [done..|].
    intros (n' & Hn' & Hb). assert (n' = n) as -> by congruence.
    apply orb_true_iff in Hr as [H|H]; apply Z.ltb_lt in H; lia.
  - intros [= <-]. split_and!; [done..|]. by intros (n' & Hn' & _).
Qed.

Lemma parse_listen_at_Ok la h p :
  parse_listen_at la = Ok (h, p) ->
  (la = "" /\ h = None /\ p = None) \/
  (la <> "" /\
   h = (if contains ":" la then Some (rpartition ":" la).1.1 else None) /\
   exists n, int (port_str_of la) = Some n /\ 0 <= n <= 65535 /\ p = Some n).
Proof.
  destruct (decide (la = "")) as [->|Hne].
  { rewrite parse_listen_at_empty. intros [= <- <-]. by left. }
  rewrite (parse_listen_at_nonempty _ Hne).
  destruct (int (port_str_of la)) as [n|] eqn:Hint; [|done].
  destruct ((n <? 0) || (65535 <? n)) eqn:Hr; simpl; [done|].
  intros [= <- <-]. right. split_and!; [done..|]. exists n.
  apply orb_false_iff in Hr as [H1 H2]. apply Z.ltb_ge in H1, H2.
  split_and!; [done|lia|lia|done].
Qed.

Lemma port_ok_iff spec :
  port_ok spec <-> exists hp, parse_listen_at (listen_segment spec) = Ok hp.
Proof.
  unfold port_ok. split.
  - destruct (parse_listen_at (listen_segment spec)) as [hp|e] eqn:E; [by eauto|].
    apply parse_listen_at_Raise in E as (_ & Hne & Hnv). tauto.
  - intros [[h p] H]. apply parse_listen_at_Ok in H as [[? _]|(_ & _ & n & ? & ? & _)].
    + by left.
    + right. by exists n.
Qed.

(** X3: [parse] called on a subclass returns an instance exactly when
    [ProxyMode.parse] returns that instance and it is of the subclass.  It
    fails with [WrongModeCategory] exactly when the listen port is fine and
    the mode name is that of another class, whatever the mode data; every
    other failure is the one of [ProxyMode.parse], which never fails with
    [WrongModeCategory]. *)
Theorem X3_parse_on_a_subclass :
  forall r c spec,
    (forall i, parse r (SubCls c) spec = Ok i <->
               parse r ProxyModeCls spec = Ok i /\ cls i = c) /\
    (forall m t, parse r (SubCls c) spec = Raise (WrongModeCategory m t) <->
                 port_ok spec /\ m = mode_name spec /\ t = type c /\
                 exists c', lower m = type c' /\ c' <> c) /\
    (forall e, parse r (SubCls c) spec = Raise e ->
               (forall m t, e <> WrongModeCategory m t) ->
               parse r ProxyModeCls spec = Raise e) /\
    (forall m t, parse r ProxyModeCls spec <> Raise (WrongModeCategory m t)).
Proof.
  intros r c spec. rewrite !parse_unfold. setoid_rewrite port_ok_iff.
  destruct (parse_listen_at (listen_segment spec)) as [[h p]|e0] eqn:Hl;
    cbn [bind].
  - split_and!.
    + intros i. unfold lookup_mode.
      destruct (types !! lower (mode_name spec)) as [mc|]; simpl; [|by split; [|intros []]].
      case_bool_decide as Hd; simpl.
      * subst mc. split; [|tauto]. intros H. split; [done|].
        by apply construct_fields in H as [? _].
      * split; [done|]. intros [H <-]. by apply construct_fields in H as [? _].
    + intros m t.
      destruct (lookup_mode (SubCls c) (mode_name spec)) as [mc|e] eqn:Hm;
        cbn [bind].
      * split.
        -- intros H. apply construct_errors in H.
           destruct H as [?|[[? ?]|[?|[?|[? ?]]]]]; done.
        -- intros (_ & -> & -> & c' & Hc' & Hne).
           apply lookup_mode_Ok in Hm as [Ht Hs]. simpl in Hs.
           apply bool_decide_eq_true in Hs as ->. rewrite Hc' in Ht.
           by apply type_inj in Ht.
      * split.
        -- intros [= ->]. apply lookup_mode_wrong in Hm
             as (-> & c0 & c' & [= <-] & -> & Hc' & Hne).
           split_and!; [by eauto|done|done|by eauto].
        -- intros (_ & -> & -> & c' & Hc' & Hne). f_equal.
           assert (Hw : lookup_mode (SubCls c) (mode_name spec) =
                        Raise (WrongModeCategory (mode_name spec) (type c))).
           { apply lookup_mode_wrong. split; [done|]. by exists c, c'. }
           congruence.
    + intros e. unfold lookup_mode.
      destruct (types !! lower (mode_name spec)) as [mc|]; simpl; [|done].
      case_bool_decide; simpl; [done|]. intros [= <-] Hw.
      by destruct (Hw _ _ eq_refl).
    + intros m t. unfold lookup_mode.
      destruct (types !! lower (mode_name spec)) as [mc|]; simpl; [|done].
      intros H. apply construct_errors in H.
      destruct H as [?|[[? ?]|[?|[?|[? ?]]]]]; done.
  - apply parse_listen_at_Raise in Hl as (-> & _ & _). split_and!.
    + intros i. split; [done|]. by intros [? _].
    + intros m t. split; [done|]. by intros ([hp ?] & _).
    + done.
    + done.
Qed.

(** X3 at [RegularMode.parse("socks5@1080")]. *)
Lemma X3_parse_on_a_subclass_witness :
  parse AddressSpec.resolve (SubCls RegularMode) "socks5@1080" =
    Raise (WrongModeCategory "socks5" "regular").
Proof.
  apply (proj1 (proj2 (X3_parse_on_a_subclass AddressSpec.resolve RegularMode
                         "socks5@1080")) "socks5" "regular").
  split_and!.
  - right. exists 1080. split; [reflexivity|lia].
  - reflexivity.
  - reflexivity.
  - exists Socks5Mode. split; [reflexivity|discriminate].
Defined.

(** X4: [parse] fails with "unknown mode" if and only if the listen port is
    fine (the port is checked first) and the lower case form of the mode
    name is none of the type names. *)
Theorem X4_unknown_mode_iff :
  forall r pc spec,
    parse r pc spec = Raise UnknownMode <->
    port_ok spec /\ forall c, lower (mode_name spec) <> type c.
Proof.
  intros r pc spec. rewrite parse_unfold, port_ok_iff.
  destruct (parse_listen_at (listen_segment spec)) as [[h p]|e0] eqn:Hl;
    cbn [bind].
  - rewrite <- (lookup_mode_unknown pc).
    destruct (lookup_mode pc (mode_name spec)) as [mc|e] eqn:Hm; cbn [bind].
    + split; [|by intros [_ ?]]. intros H. apply construct_errors in H.
      destruct H as [?|[[? ?]|[?|[?|[? ?]]]]]; done.
    + split; [intros [= ->]; by eauto|]. by intros [_ [= ->]].
  - apply parse_listen_at_Raise in Hl as (-> & _ & _).
    split; [done|]. by intros ([hp ?] & _).
Qed.

(** X4 at ["proxy@8080"]. *)
Lemma X4_unknown_mode_iff_witness :
  parse AddressSpec.resolve ProxyModeCls "proxy@8080" = Raise UnknownMode.
Proof.
  apply X4_unknown_mode_iff. split.
  - right. exists 8080. split; [reflexivity|lia].
  - intros c. destruct c; discriminate.
Defined.

(** ** The listen address of a parsed instance *)

(** X5: the custom listen port of a parsed instance lies in [0, 65535], and
    so does [listen_port(default)] for every class when no default or a
    default in that range is given. *)
Theorem X5_listen_port_in_range :
  forall r pc spec i,
    parse r pc spec = Ok i ->
    (forall p, custom_listen_port i = Some p -> 0 <= p <= 65535) /\
    (forall default,
        (forall d, default = Some d -> 0 <= d <= 65535) ->
        0 <= listen_port i default <= 65535).
Proof.
  intros r pc spec i Hi.
  destruct (parse_Ok_inv _ _ _ _ Hi) as (mode & _ & Hl & _).
  assert (Hp : forall p, custom_listen_port i = Some p -> 0 <= p <= 65535).
  { intros p Hp.
    apply parse_listen_at_Ok in Hl as [(_ & _ & ?)|(_ & _ & n & _ & ? & ?)];
      congruence. }
  split; [done|]. intros default Hd. unfold listen_port.
  destruct (custom_listen_port i) as [p|]; [by apply Hp|].
  destruct default as [d|]; [by apply Hd|].
  destruct (cls i); simpl; lia.
Qed.

(** X5 at ["dns@5353"]. *)
Lemma X5_listen_port_in_range_witness :
  0 <= listen_port
         {| cls := DnsMode; full_spec := "dns@5353"; data := "";
            custom_listen_host := None; custom_listen_port := Some 5353;
            scheme := None; address := None |} None <= 65535.
Proof.
  apply (proj2 (X5_listen_port_in_range AddressSpec.resolve ProxyModeCls
                  "dns@5353" _ eq_refl)).
  discriminate.
Defined.

(** X6: in a parsed instance the custom listen port is set exactly when
    the spec has a listen segment, and the custom listen host exactly when
    that segment contains a ':'; the host is then all the text before the
    last ':' of the segment (empty or with further colons as it may be),
    and the port is [int] of the text after it.  A host is never set
    without a port. *)
Theorem X6_listen_address_fields :
  forall r pc spec i,
    parse r pc spec = Ok i ->
    (custom_listen_port i = None <-> listen_segment spec = "") /\
    (custom_listen_host i = None <->
     contains ":" (listen_segment spec) = false) /\
    (forall h p, cut_at_last ":" (listen_segment spec) h p ->
                 custom_listen_host i = Some h /\
                 custom_listen_port i = int p) /\
    (contains ":" (listen_segment spec) = false ->
     listen_segment spec <> "" ->
     custom_listen_port i = int (listen_segment spec)) /\
    (is_Some (custom_listen_host i) -> is_Some (custom_listen_port i)).
Proof.
  intros r pc spec i Hi.
  destruct (parse_Ok_inv _ _ _ _ Hi) as (mode & _ & Hl & _).
  set (la := listen_segment spec) in *.
  apply parse_listen_at_Ok in Hl as [(Hla & Hh & Hp)|(Hne & Hh & n & Hn & _ & Hp)].
  - rewrite Hla, Hh, Hp. split_and!; try done.
    intros h p [Hcut _]. by destruct h.
  - rewrite Hh, Hp. split_and!.
    + split; [done|]. by intros ?.
    + by destruct (contains ":" la).
    + intros h p Hcut. rewrite (port_str_of_cut _ _ _ Hcut) in Hn.
      destruct Hcut as [-> Hc].
      rewrite contains_app, contains_cons_same, orb_true_r.
      by rewrite rpartition_app.
    + intros Hc _. by rewrite (port_str_of_plain _ Hc) in Hn.
    + by eauto.
Qed.

(** X6 at ["regular@::1:8080"]: the host is ["::1"]. *)
Lemma X6_listen_address_fields_witness :
  custom_listen_host
    {| cls := RegularMode; full_spec := "regular@::1:8080"; data := "";
       custom_listen_host := Some "::1"; custom_listen_port := Some 8080;
       scheme := None; address := None |} = Some "::1" /\
  custom_listen_port
    {| cls := RegularMode; full_spec := "regular@::1:8080"; data := "";
       custom_listen_host := Some "::1"; custom_listen_port := Some 8080;
       scheme := None; address := None |} = int "8080".
Proof.
  apply (proj1 (proj2 (proj2 (X6_listen_address_fields AddressSpec.resolve
                                ProxyModeCls "regular@::1:8080" _ eq_refl)))
           "::1" "8080").
  split; reflexivity.
Defined.

(** ** The spec and its parts *)

Lemma append_assoc (a b c : string) : (a ++ b) ++ c = a ++ b ++ c.
Proof.
  induction a as [|x a IH]; [done|].
  change (String x ((a ++ b) ++ c) = String x (a ++ b ++ c)). by f_equal.
Qed.

Lemma append_nil_r (a : string) : a ++ "" = a.
Proof.
  induction a as [|x a IH]; [done|].
  change (String x (a ++ "") = String x a). by f_equal.
Qed.

Lemma partition_inv c s h m t :
  partition c s = (h, m, t) ->
  s = h ++ m ++ t /\ contains c h = false /\
  (m = String c "" \/ (m = "" /\ t = "")).
Proof.
  revert h. induction s as [|a s IH]; intros h; simpl.
  - intros [= <- <- <-]. split_and!; [done..|by right].
  - destruct (Ascii.eqb a c) eqn:Ea.
    + intros [= <- <- <-]. apply Ascii.eqb_eq in Ea as ->.
      split_and!; [done..|by left].
    + destruct (partition c s) as [[h' m'] t'].
      intros [= <- <- <-]. destruct (IH h' eq_refl) as (-> & Hh & Hm).
      simpl. rewrite Ea. by split_and!.
Qed.

Lemma partition_cut c s h m t :
  partition c s = (h, m, t) -> cut_at_first c s h t.
Proof.
  intros H. apply partition_inv in H as (-> & Hh & [->|[-> ->]]).
  - by left.
  - right. rewrite !append_nil_r. by split_and!.
Qed.

(** X7: every spec is its parts in a row: an '@' (only when nothing stands
    before the last '@'), the mode name, a ':' and the mode data (or neither),
    an '@' and the listen segment (or neither).  The mode name has no ':'
    and the listen segment no '@'.  So the [data] of a parsed instance is a
    piece of its [full_spec]. *)
Theorem X7_spec_is_its_parts :
  forall spec,
    (exists pre sep at_,
        spec = pre ++ mode_name spec ++ sep ++ mode_data spec
                   ++ at_ ++ listen_segment spec /\
        (pre = "" \/ (pre = "@" /\ at_ = "")) /\
        (sep = ":" \/ (sep = "" /\ mode_data spec = "")) /\
        (at_ = "@" \/ (at_ = "" /\ listen_segment spec = ""))) /\
    contains ":" (mode_name spec) = false /\
    contains "@" (listen_segment spec) = false /\
    (forall r pc i,
        parse r pc spec = Ok i ->
        exists before after, full_spec i = before ++ data i ++ after).
Proof.
  intros spec.
  assert (Hparts :
    (exists pre sep at_,
        spec = pre ++ mode_name spec ++ sep ++ mode_data spec
                   ++ at_ ++ listen_segment spec /\
        (pre = "" \/ (pre = "@" /\ at_ = "")) /\
        (sep = ":" \/ (sep = "" /\ mode_data spec = "")) /\
        (at_ = "@" \/ (at_ = "" /\ listen_segment spec = ""))) /\
    contains ":" (mode_name spec) = false /\
    contains "@" (listen_segment spec) = false).
  { unfold mode_name, mode_data, listen_segment, split_spec, rpartition.
    destruct (rsplit "@" spec) as [[h0 t0]|] eqn:Hr.
    - apply rsplit_Some in Hr as [-> Ht0].
      destruct (truthy h0) eqn:Hth; cbn [negb].
      + destruct (partition ":" h0) as [[m sep] d] eqn:Hp. cbn [fst snd].
        apply partition_inv in Hp as (Heq & Hm & Hsep).
        split_and!; [|done..]. exists "", sep, "@".
        split_and!; [|by left|done|by left].
        change (h0 ++ String "@" t0 = m ++ sep ++ d ++ "@" ++ t0).
        rewrite Heq, !append_assoc. reflexivity.
      + apply truthy_false in Hth as ->.
        destruct (partition ":" t0) as [[m sep] d] eqn:Hp. cbn [fst snd].
        apply partition_inv in Hp as (-> & Hm & Hsep).
        split_and!; [|done..]. exists "@", sep, "".
        rewrite !append_nil_r. split_and!; [reflexivity|by right|done|by right].
    - cbn [truthy negb].
      destruct (partition ":" spec) as [[m sep] d] eqn:Hp. cbn [fst snd].
      apply partition_inv in Hp as (Heq & Hm & Hsep).
      split_and!; [|done..]. exists "", sep, "".
      rewrite !append_nil_r. split_and!; [done|by left|done|by right]. }
  destruct Hparts as (Hex & Hm & Hl). split_and!; [done..|].
  intros r pc i Hi.
  destruct (parse_Ok_inv _ _ _ _ Hi) as (mode & Hs & _ & _ & Hf & _).
  destruct Hex as (pre & sep & at_ & Heq & _).
  assert (Hd : mode_data spec = data i) by (unfold mode_data; by rewrite Hs).
  exists (pre ++ mode_name spec ++ sep), (at_ ++ listen_segment spec).
  rewrite Hf, <- Hd, !append_assoc. done.
Qed.

(** X7 at ["reverse:tcp://example.com:25@127.0.0.1:443"]. *)
Lemma X7_spec_is_its_parts_witness :
  exists before after,
    "reverse:tcp://example.com:25@127.0.0.1:443" =
      before ++ "tcp://example.com:25" ++ after.
Proof.
  apply (proj2 (proj2 (proj2 (X7_spec_is_its_parts
                                "reverse:tcp://example.com:25@127.0.0.1:443")))
           AddressSpec.resolve ProxyModeCls
           {| cls := ReverseMode;
              full_spec := "reverse:tcp://example.com:25@127.0.0.1:443";
              data := "tcp://example.com:25";
              custom_listen_host := Some "127.0.0.1";
              custom_listen_port := Some 443;
              scheme := Some "tcp"; address := Some ("example.com", 25) |}).
  reflexivity.
Defined.

(** ** The validators *)

Lemma post_init_no_args r c d :
  no_args c = true ->
  post_init r c d =
    if truthy d then Raise UnexpectedArguments else Ok (None, None).
Proof.
  destruct c; try done; intros _; unfold post_init, _check_empty;
    by destruct (truthy d).
Qed.

Lemma post_init_args_expected r c d :
  no_args c = false -> post_init r c d <> Raise UnexpectedArguments.
Proof.
  destruct c; try done; intros _;
    unfold post_init, resolve, bind; repeat case_match; congruence.
Qed.

(** X8: [parse] fails with "mode takes no arguments" if and only if the
    listen port is fine, the mode name is accepted and names [RegularMode],
    [TransparentMode] or [Socks5Mode], and the mode data is not empty.  An
    instance of these classes has empty data, neither [scheme] nor
    [address], and does not depend on the address resolver. *)
Theorem X8_modes_without_arguments :
  forall r pc spec,
    (parse r pc spec = Raise UnexpectedArguments <->
     port_ok spec /\ mode_data spec <> "" /\
     exists c, no_args c = true /\ lookup_mode pc (mode_name spec) = Ok c) /\
    (forall i,
        parse r pc spec = Ok i -> no_args (cls i) = true ->
        data i = "" /\ scheme i = None /\ address i = None /\
        forall r', parse r' pc spec = Ok i).
Proof.
  intros r pc spec. split.
  - rewrite parse_unfold, port_ok_iff.
    destruct (parse_listen_at (listen_segment spec)) as [[h p]|e0] eqn:Hl;
      cbn [bind].
    + destruct (lookup_mode pc (mode_name spec)) as [mc|e] eqn:Hm; cbn [bind].
      * unfold construct.
        destruct (no_args mc) eqn:Hn.
        -- rewrite (post_init_no_args _ _ _ Hn).
           destruct (truthy (mode_data spec)) eqn:Ht; cbn [bind].
           ++ apply truthy_true in Ht. split; [|done]. intros _.
              split_and!; [by eauto|done|by eauto].
           ++ apply truthy_false in Ht. split; [done|]. by intros (_ & ? & _).
        -- assert (Hne := post_init_args_expected r mc (mode_data spec) Hn).
           destruct (post_init r mc (mode_data spec)) as [[sch addr]|e];
             cbn [bind].
           ++ split; [done|]. intros (_ & _ & c & Hc & [= ->]). congruence.
           ++ split; [intros [= ->]; done|].
              intros (_ & _ & c & Hc & [= ->]). congruence.
      * split; [|by intros (_ & _ & c & _ & ?)].
        intros [= ->]. apply lookup_mode_errors in Hm as [?|[? ?]]; done.
    + apply parse_listen_at_Raise in Hl as (-> & _ & _).
      split; [done|]. by intros ([hp ?] & _).
  - intros i Hi Hn.
    destruct (parse_Ok_inv _ _ _ _ Hi) as (mode & Hs & Hl & Hm & Hf & Hp).
    rewrite (post_init_no_args _ _ _ Hn) in Hp.
    destruct (truthy (data i)) eqn:Ht; [done|].
    apply truthy_false in Ht. injection Hp as Hsch Haddr.
    split_and!; [done..|]. intros r'.
    rewrite (parse_split r' pc _ _ _ _ Hs), Hl. cbn [bind].
    rewrite Hm. cbn [bind]. unfold construct.
    rewrite (post_init_no_args _ _ _ Hn), Ht. cbn [truthy bind].
    destruct i; simpl in *. by subst.
Qed.

(** X8 at ["socks5:user@1080"]. *)
Lemma X8_modes_without_arguments_witness :
  parse AddressSpec.resolve ProxyModeCls "socks5:user@1080" =
    Raise UnexpectedArguments.
Proof.
  apply (proj1 (X8_modes_without_arguments AddressSpec.resolve ProxyModeCls
                  "socks5:user@1080")).
  split_and!.
  - right. exists 1080. split; [reflexivity|lia].
  - discriminate.
  - exists Socks5Mode. split; reflexivity.
Defined.

Lemma post_init_dtls r d :
  post_init r DtlsMode d =
    let '(m, _, server) := partition ":" d in
    if decide (m = "reverse") then
      match r server "dtls" with
      | inl msg => Raise (ResolverError msg)
      | inr (sch, addr) =>
          if decide (sch = "dtls") then Ok (Some sch, Some addr)
          else Raise (InvalidScheme DtlsMode)
      end
    else Raise InvalidDtlsMode.
Proof.
  unfold post_init, resolve. destruct (partition ":" d) as [[m sep] server].
  destruct (String.eqb_spec m "reverse"); case_decide; try done. simpl.
  destruct (r server "dtls") as [msg|[sch addr]]; simpl; [done|].
  destruct (String.eqb_spec sch "dtls"); by case_decide.
Qed.

Lemma post_init_dns_reverse r d :
  d ∉ [""; "resolve-local"; "transparent"] ->
  post_init r DnsMode d =
    let '(m, _, server) := partition ":" d in
    if decide (m = "reverse") then
      match r server "dns" with
      | inl msg => Raise (ResolverError msg)
      | inr (sch, addr) =>
          if decide (sch = "dns") then Ok (Some sch, Some addr)
          else Raise (InvalidScheme DnsMode)
      end
    else Raise InvalidDnsMode.
Proof.
  intros Hd. unfold post_init, resolve.
  rewrite bool_decide_eq_false_2 by done.
  destruct (partition ":" d) as [[m sep] server].
  destruct (String.eqb_spec m "reverse"); case_decide; try done. simpl.
  destruct (r server "dns") as [msg|[sch addr]]; simpl; [done|].
  destruct (String.eqb_spec sch "dns"); by case_decide.
Qed.

(** X9: the validator of [DtlsMode] cuts the data at its first ':' and
    fails with "invalid dtls mode" unless the text before it is
    ["reverse"]; there is no bare form, so empty data fails too.  The rest
    goes to the resolver with the default scheme ["dtls"], and a resolved
    scheme other than ["dtls"] is rejected.  A parsed [DtlsMode] instance
    has the scheme ["dtls"] and the address the resolver returned. *)
Theorem X9_dtls_validator :
  forall r,
    (forall d m server,
        cut_at_first ":" d m server ->
        (m <> "reverse" -> post_init r DtlsMode d = Raise InvalidDtlsMode) /\
        (m = "reverse" ->
         post_init r DtlsMode d =
           match r server "dtls" with
           | inl msg => Raise (ResolverError msg)
           | inr (sch, addr) =>
               if decide (sch = "dtls") then Ok (Some sch, Some addr)
               else Raise (InvalidScheme DtlsMode)
           end)) /\
    post_init r DtlsMode "" = Raise InvalidDtlsMode /\
    (forall pc spec i,
        parse r pc spec = Ok i -> cls i = DtlsMode ->
        exists server addr,
          cut_at_first ":" (data i) "reverse" server /\
          r server "dtls" = inr ("dtls", addr) /\
          scheme i = Some "dtls" /\ address i = Some addr).
Proof.
  intros r. split_and!.
  - intros d m server Hcut. rewrite post_init_dtls.
    destruct (partition_cut_at_first _ _ _ _ Hcut) as [sep ->].
    split; intros Hm; by case_decide.
  - done.
  - intros pc spec i Hi Hc.
    destruct (parse_Ok_inv _ _ _ _ Hi) as (mode & _ & _ & _ & _ & Hp).
    rewrite Hc, post_init_dtls in Hp.
    destruct (partition ":" (data i)) as [[m sep] server] eqn:Hpart.
    apply partition_cut in Hpart. case_decide as Hm; [subst m|done].
    destruct (r server "dtls") as [msg|[sch addr]] eqn:Hr; [done|].
    case_decide as Hs; [subst sch|done]. injection Hp as <- <-.
    by exists server, addr.
Qed.

(** X9 at the data ["forward:10.0.0.1:443"]. *)
Lemma X9_dtls_validator_witness :
  post_init AddressSpec.resolve DtlsMode "forward:10.0.0.1:443" =
    Raise InvalidDtlsMode.
Proof.
  apply (proj1 (proj1 (X9_dtls_validator AddressSpec.resolve)
                  "forward:10.0.0.1:443" "forward" "10.0.0.1:443"
                  (or_introl (conj eq_refl eq_refl)))).
  discriminate.
Defined.

(** X10: in a parsed instance [scheme] and [address] are set together.
    They are missing exactly in the classes without arguments and in a
    [DnsMode] whose data is [""], ["resolve-local"] or ["transparent"].  A
    scheme that is set is one the class accepts: ["http"] or ["https"] for
    [UpstreamMode], these, ["tcp"] or ["tls"] for [ReverseMode], ["dns"]
    for [DnsMode], ["dtls"] for [DtlsMode]. *)
Theorem X10_scheme_and_address :
  forall r pc spec i,
    parse r pc spec = Ok i ->
    (scheme i = None <-> address i = None) /\
    (scheme i = None <->
     no_args (cls i) = true \/
     (cls i = DnsMode /\ data i ∈ [""; "resolve-local"; "transparent"])) /\
    (forall s, scheme i = Some s ->
               match cls i with
               | UpstreamMode => s ∈ ["http"; "https"]
               | ReverseMode => s ∈ ["http"; "https"; "tcp"; "tls"]
               | DnsMode => s = "dns"
               | DtlsMode => s = "dtls"
               | _ => False
               end).
Proof.
  intros r pc spec i Hi.
  destruct (parse_Ok_inv _ _ _ _ Hi) as (mode & _ & _ & _ & _ & Hp).
  destruct (cls i) eqn:Hc.
  1, 2, 5: rewrite post_init_no_args in Hp by done;
    destruct (truthy (data i)); [done|]; injection Hp as <- <-;
    split_and!; [done|split; [by left|done]|done].
  - unfold post_init, resolve in Hp.
    destruct (r (data i) "http") as [msg|[sch addr]]; simpl in Hp; [done|].
    destruct (String.eqb_spec sch "http") as [->|H1];
      [|destruct (String.eqb_spec sch "https") as [->|H2]; [|done]];
      simpl in Hp; injection Hp as <- <-.
    all: split_and!; [done|split; [done|by intros [?|[? _]]]|].
    all: intros s [= <-]; rewrite !elem_of_cons; tauto.
  - unfold post_init, resolve in Hp.
    destruct (r (data i) "https") as [msg|[sch addr]]; simpl in Hp; [done|].
    destruct (String.eqb_spec sch "http") as [->|H1];
      [|destruct (String.eqb_spec sch "https") as [->|H2];
        [|destruct (String.eqb_spec sch "tcp") as [->|H3];
          [|destruct (String.eqb_spec sch "tls") as [->|H4]; [|done]]]];
      simpl in Hp; injection Hp as <- <-.
    all: split_and!; [done|split; [done|by intros [?|[? _]]]|].
    all: intros s [= <-]; rewrite !elem_of_cons; tauto.
  - destruct (decide (data i ∈ [""; "resolve-local"; "transparent"])) as [Hd|Hd].
    + unfold post_init in Hp. rewrite bool_decide_eq_true_2 in Hp by done.
      injection Hp as <- <-. split_and!; [done|split; [by right|done]|done].
    + rewrite post_init_dns_reverse in Hp by done.
      destruct (partition ":" (data i)) as [[m sep] server].
      case_decide; [|done].
      destruct (r server "dns") as [msg|[sch addr]]; [done|].
      case_decide as Hs; [subst sch|done]. injection Hp as <- <-.
      split_and!; [done|split; [done|by intros [?|[_ ?]]]|by intros s [= <-]].
  - rewrite post_init_dtls in Hp.
    destruct (partition ":" (data i)) as [[m sep] server].
    case_decide; [|done].
    destruct (r server "dtls") as [msg|[sch addr]]; [done|].
    case_decide as Hs; [subst sch|done]. injection Hp as <- <-.
    split_and!; [done|split; [done|by intros [?|[? _]]]|by intros s [= <-]].
Qed.

(** X10 at ["reverse:tls://example.com:853"]. *)
Lemma X10_scheme_and_address_witness :
  "tls" ∈ ["http"; "https"; "tcp"; "tls"].
Proof.
  apply (proj2 (proj2 (X10_scheme_and_address AddressSpec.resolve ProxyModeCls
                         "reverse:tls://example.com:853"
                         {| cls := ReverseMode;
                            full_spec := "reverse:tls://example.com:853";
                            data := "tls://example.com:853";
                            custom_listen_host := None;
                            custom_listen_port := None;
                            scheme := Some "tls";
                            address := Some ("example.com", 853) |}
                         eq_refl)) "tls").
  reflexivity.
Defined.

(** ** One spec, one instance *)

Lemma parse_on_base r pc spec i :
  parse r pc spec = Ok i -> parse r ProxyModeCls spec = Ok i.
Proof.
  rewrite !parse_unfold.
  destruct (parse_listen_at (listen_segment spec)) as [[h p]|e0]; cbn [bind];
    [|done].
  unfold lookup_mode.
  destruct (types !! lower (mode_name spec)) as [mc|]; simpl; [|done].
  by destruct (issubclass mc pc).
Qed.

(** X13: the [full_spec] is all there is to a parsed instance: two
    instances that [parse] returned, on whatever classes, are equal if and
    only if they came from the same spec string, and if and only if their
    [get_state] is the same. *)
Theorem X13_full_spec_is_the_state :
  forall r pc1 pc2 s1 s2 i1 i2,
    parse r pc1 s1 = Ok i1 ->
    parse r pc2 s2 = Ok i2 ->
    (i1 = i2 <-> s1 = s2) /\
    (get_state i1 = get_state i2 <-> i1 = i2).
Proof.
  intros r pc1 pc2 s1 s2 i1 i2 H1 H2.
  assert (Hf1 := parse_full_spec _ _ _ _ H1).
  assert (Hf2 := parse_full_spec _ _ _ _ H2).
  assert (Hiff : i1 = i2 <-> s1 = s2).
  { split; [congruence|]. intros <-.
    apply parse_on_base in H1, H2. congruence. }
  split; [done|]. unfold get_state. rewrite Hf1, Hf2. tauto.
Qed.

(** X13 at ["regular"] and ["regular@8080"]. *)
Lemma X13_full_spec_is_the_state_witness :
  {| cls := RegularMode; full_spec := "regular"; data := "";
     custom_listen_host := None; custom_listen_port := None;
     scheme := None; address := None |} =
  {| cls := RegularMode; full_spec := "regular@8080"; data := "";
     custom_listen_host := None; custom_listen_port := Some 8080;
     scheme := None; address := None |} <->
  "regular" = "regular@8080".
Proof.
  apply (proj1 (X13_full_spec_is_the_state AddressSpec.resolve
                  ProxyModeCls (SubCls RegularMode) "regular" "regular@8080"
                  _ _ eq_refl eq_refl)).
Defined.

(** X14: the result of [parse] depends on the spec only through the lower
    case form of its mode name, its mode data, its listen segment, and the
    [full_spec] it stores.  Two specs that agree in the first three (such
    as ["Regular@1234"] and ["regular@1234"], or ["@socks5"], ["socks5"]
    and ["socks5@"]) give instances that differ in [full_spec] only, or fail
    alike ("not a spec for" names the mode as it was written). *)
Theorem X14_parse_depends_on_the_split :
  forall r pc s1 s2,
    lower (mode_name s1) = lower (mode_name s2) ->
    mode_data s1 = mode_data s2 ->
    listen_segment s1 = listen_segment s2 ->
    (forall i, parse r pc s1 = Ok i ->
               parse r pc s2 = Ok (with_full_spec i s2)) /\
    (forall e, parse r pc s1 = Raise e ->
               (forall m t, e <> WrongModeCategory m t) ->
               parse r pc s2 = Raise e).
Proof.
  intros r pc s1 s2 Hm Hd Hl. rewrite !parse_unfold, <- Hd, <- Hl.
  destruct (parse_listen_at (listen_segment s1)) as [[h p]|e0]; cbn [bind];
    [|by split].
  unfold lookup_mode. rewrite <- Hm.
  destruct (types !! lower (mode_name s1)) as [mc|]; cbn [bind]; [|by split].
  destruct (negb (issubclass mc pc)); cbn [bind].
  - split; [done|]. intros e [= <-] H. by destruct (H _ _ eq_refl).
  - unfold construct.
    destruct (post_init r mc (mode_data s1)) as [[sch addr]|e]; cbn [bind].
    + split; [|done]. by intros i [= <-].
    + by split.
Qed.

(** X14 at ["SOCKS5@1080"] and ["socks5@1080"]. *)
Lemma X14_parse_depends_on_the_split_witness :
  parse AddressSpec.resolve ProxyModeCls "socks5@1080" =
    Ok {| cls := Socks5Mode; full_spec := "socks5@1080"; data := "";
          custom_listen_host := None; custom_listen_port := Some 1080;
          scheme := None; address := None |}.
Proof.
  apply (proj1 (X14_parse_depends_on_the_split AddressSpec.resolve ProxyModeCls
                  "SOCKS5@1080" "socks5@1080" eq_refl eq_refl eq_refl)
           {| cls := Socks5Mode; full_spec := "SOCKS5@1080"; data := "";
              custom_listen_host := None; custom_listen_port := Some 1080;
              scheme := None; address := None |}).
  reflexivity.
Defined.

(** ** Ports written in plain digits *)

Lemma digit_value_range a : is_digit a = true -> 0 <= digit_value a <= 9.
Proof.
  unfold is_digit, digit_value. intros H.
  apply andb_true_iff in H as [H1 H2].
  apply N.leb_le in H1, H2. lia.
Qed.

Lemma digits_value_nonneg s acc v :
  0 <= acc -> AddressSpec.digits_value s acc = Some v -> 0 <= v.
Proof.
  revert acc. induction s as [|a s IH]; intros acc Hacc; simpl.
  - by intros [= <-].
  - destruct (is_digit a) eqn:Ha; [|done].
    apply IH. apply digit_value_range in Ha. lia.
Qed.

(** X16: when the port string of the listen segment is a plain run of
    decimal digits spelling [n], [parse] fails with [InvalidPort] if and
    only if [n] is above 65535 or the run has more than 4300 digits (the
    limit of [int], whatever the number is), and every instance it returns
    has the custom listen port [n]. *)
Theorem X16_port_in_plain_digits :
  forall r pc spec n,
    AddressSpec.decimal (port_str_of (listen_segment spec)) = Some n ->
    (parse r pc spec = Raise (InvalidPort (port_str_of (listen_segment spec)))
     <-> 65535 < n \/
         int_max_str_digits
           < Z.of_nat (String.length (port_str_of (listen_segment spec)))) /\
    (forall i, parse r pc spec = Ok i -> custom_listen_port i = Some n).
Proof.
  intros r pc spec n Hdec.
  assert (Hint := int_decimal _ _ Hdec).
  assert (Hn : 0 <= n).
  { unfold AddressSpec.decimal in Hdec.
    destruct (port_str_of (listen_segment spec)); [done|].
    by apply (digits_value_nonneg _ 0 n) in Hdec. }
  assert (Hne : listen_segment spec <> "").
  { intros Hla. by rewrite Hla in Hdec. }
  rewrite parse_unfold, (parse_listen_at_nonempty _ Hne), Hint.
  destruct (Z.ltb_spec int_max_str_digits
              (Z.of_nat (String.length (port_str_of (listen_segment spec)))))
    as [Hlong|Hshort]; cbn [bind].
  { split; [split; [by right|done]|done]. }
  destruct ((n <? 0) || (65535 <? n)) eqn:Hr; cbn [bind].
  - apply orb_true_iff in Hr as [H|H]; apply Z.ltb_lt in H; [lia|].
    split; [split; [by left|done]|done].
  - apply orb_false_iff in Hr as [_ H]. apply Z.ltb_ge in H. split.
    + split; [|lia].
      destruct (lookup_mode pc (mode_name spec)) as [mc|e] eqn:Hm; cbn [bind].
      * intros Hc. by apply construct_not_port in Hc.
      * intros [= ->]. by apply lookup_mode_not_port in Hm.
    + intros i.
      destruct (lookup_mode pc (mode_name spec)) as [mc|e]; cbn [bind]; [|done].
      intros Hc. apply construct_fields in Hc. tauto.
Qed.

(** X16 at ["regular@127.0.0.1:0080"]: the port is 80. *)
Lemma X16_port_in_plain_digits_witness :
  custom_listen_port
    {| cls := RegularMode; full_spec := "regular@127.0.0.1:0080"; data := "";
       custom_listen_host := Some "127.0.0.1"; custom_listen_port := Some 80;
       scheme := None; address := None |} = Some 80.
Proof.
  apply (proj2 (X16_port_in_plain_digits AddressSpec.resolve ProxyModeCls
                  "regular@127.0.0.1:0080" 80 eq_refl)).
  reflexivity.
Defined.

(** ** The cache, seen from the callers *)

(** X11: after any sequence of calls of [parse], the cached [parse] gives
    what its body gives: it raises an exception exactly when the body
    raises it, and returns an object with a given value exactly when the
    body returns that value.  A call that raises adds nothing to the
    cache. *)
Theorem X11_cache_is_transparent :
  forall r calls pc spec,
    let st := run r calls empty_store in
    (forall e, (parse_cached r pc spec st).1 = Raise e <->
               parse r pc spec = Raise e) /\
    (forall v, (exists o, (parse_cached r pc spec st).1 = Ok o /\ obj_val o = v)
               <-> parse r pc spec = Ok v) /\
    (forall e, parse r pc spec = Raise e ->
               cache (parse_cached r pc spec st).2 = cache st).
Proof.
  intros r calls pc spec st.
  assert (Hs : cache_sound r st)
    by apply cache_sound_run, cache_sound_empty.
  destruct (cache st !! (pc, Positional, spec)) as [o|] eqn:E.
  - rewrite (parse_cached_hit _ _ _ _ _ E). apply Hs in E. rewrite E.
    cbn [fst snd]. split_and!; [done| |done].
    intros v. split.
    + by intros (o' & [= <-] & <-).
    + intros [= <-]. by exists o.
  - assert (Hm := parse_cached_miss r _ _ _ E).
    destruct (parse r pc spec) as [v0|e0].
    + rewrite Hm. cbn [fst snd]. split_and!; [done| |done].
      intros v. split.
      * by intros (o' & [= <-] & <-).
      * intros [= <-]. by eexists.
    + destruct Hm as [Hr Hc]. rewrite Hr. split_and!.
      * intros e. split; congruence.
      * intros v. split; [by intros (o' & ? & _)|done].
      * done.
Qed.

(** X11 at [ProxyMode.parse("proxy")] on the empty cache. *)
Lemma X11_cache_is_transparent_witness :
  cache (parse_cached AddressSpec.resolve ProxyModeCls "proxy" empty_store).2 =
    cache empty_store.
Proof.
  apply (proj2 (proj2 (X11_cache_is_transparent AddressSpec.resolve []
                         ProxyModeCls "proxy")) UnknownMode).
  reflexivity.
Defined.

(** X12: among calls that do not overlap, an instance that [parse]
    returned, on whatever class and in whatever call form, survives the
    round trip through its state: [from_state(get_state())], called on any
    class, returns an instance of the same value; it is the very same
    instance, and nothing is constructed, when the first call was
    [ProxyMode.parse] with the spec passed by position, as [from_state]
    passes it.  In every run, with overlapping calls too, whatever
    [from_state] returns for that state is an instance of the same value. *)
Theorem X12_from_state_of_get_state :
  forall r,
    (forall calls form pc spec o st1,
        parse_call r form pc spec (run_calls r calls empty_store) = (Ok o, st1) ->
        forall c, exists o' st2,
          from_state_cached r c (get_state (obj_val o)) st1 = (Ok o', st2) /\
          obj_val o' = obj_val o /\
          (pc = ProxyModeCls -> form = Positional -> o' = o /\ st2 = st1)) /\
    (forall evs k o res,
        (k, Ok o) ∈ (exec r evs (empty_store, [])).1 ->
        ((ProxyModeCls, Positional, get_state (obj_val o)), res)
          ∈ (exec r evs (empty_store, [])).1 ->
        exists o', res = Ok o' /\ obj_val o' = obj_val o).
Proof.
  intros r. split.
  - intros calls form pc spec o st1 H c.
    assert (Hs0 : cache_sound r (run_calls r calls empty_store))
      by apply cache_sound_run_calls, cache_sound_empty.
    assert (Hs1 : cache_sound r st1).
    { replace st1
        with (parse_call r form pc spec (run_calls r calls empty_store)).2
        by (by rewrite H).
      by apply cache_sound_step. }
    assert (Hv := parse_call_agrees r pc form spec _ Hs0). rewrite H in Hv.
    cbn [fst] in Hv. unfold get_state, from_state_cached, parse_cached.
    rewrite (parse_full_spec _ _ _ _ Hv).
    assert (Hb := parse_on_base _ _ _ _ Hv).
    assert (Ha := parse_call_agrees r ProxyModeCls Positional spec _ Hs1).
    destruct (parse_call r Positional ProxyModeCls spec st1)
      as [[o'|e] st2] eqn:E; cbn [fst] in Ha; [|congruence].
    exists o', st2. split_and!; [done|congruence|].
    intros -> ->. apply parse_call_Ok_lookup in H.
    rewrite (parse_call_hit _ _ _ _ _ _ H) in E. by injection E as <- <-.
  - intros evs k o res Hk Hres.
    destruct (exec_sound r evs (empty_store, []) (cache_sound_empty r))
      as [_ Hlog].
    apply Hlog in Hk, Hres. unfold sound_return in Hk, Hres.
    cbn [fst snd] in Hk, Hres.
    assert (Hf := parse_full_spec _ _ _ _ Hk). unfold get_state in Hres.
    rewrite Hf in Hres. apply parse_on_base in Hk.
    destruct res as [o'|e]; [|congruence].
    exists o'. split; [done|congruence].
Qed.

(** X12 at [UpstreamMode.parse(spec="upstream:proxy:3128")] on the empty
    cache. *)
Lemma X12_from_state_of_get_state_witness :
  exists o' st2,
    from_state_cached AddressSpec.resolve (SubCls DnsMode)
      "upstream:proxy:3128"
      (parse_call AddressSpec.resolve Keyword (SubCls UpstreamMode)
         "upstream:proxy:3128" empty_store).2 = (Ok o', st2) /\
    obj_val o' =
      {| cls := UpstreamMode; full_spec := "upstream:proxy:3128";
         data := "proxy:3128"; custom_listen_host := None;
         custom_listen_port := None; scheme := Some "http";
         address := Some ("proxy", 3128) |}.
Proof.
  destruct (proj1 (X12_from_state_of_get_state AddressSpec.resolve) []
              Keyword (SubCls UpstreamMode) "upstream:proxy:3128"
              (mkObj 0 {| cls := UpstreamMode;
                          full_spec := "upstream:proxy:3128";
                          data := "proxy:3128"; custom_listen_host := None;
                          custom_listen_port := None; scheme := Some "http";
                          address := Some ("proxy", 3128) |})
              (parse_call AddressSpec.resolve Keyword (SubCls UpstreamMode)
                 "upstream:proxy:3128" empty_store).2
              eq_refl (SubCls DnsMode)) as (o' & st2 & H1 & H2 & _).
  exists o', st2. split; [exact H1|exact H2].
Defined.

(** ** Failures of the address resolver *)

(** X15: when [parse] fails with an exception of the address resolver, the
    listen port and the mode name were fine, and the exception is the one
    the resolver raised on a tail of the mode data (all of it for
    [UpstreamMode] and [ReverseMode], the text after ["reverse:"] for
    [DnsMode] and [DtlsMode]) with one of the default schemes ["http"],
    ["https"], ["dns"], ["dtls"].  With a resolver that never raises,
    [parse] never fails this way. *)
Theorem X15_resolver_failures_pass_through :
  forall r pc spec msg,
    parse r pc spec = Raise (ResolverError msg) ->
    port_ok spec /\
    exists c before raw default_scheme,
      lookup_mode pc (mode_name spec) = Ok c /\
      mode_data spec = before ++ raw /\
      r raw default_scheme = inl msg /\
      (c, before, default_scheme) ∈
        [(UpstreamMode, "", "http"); (ReverseMode, "", "https");
         (DnsMode, "reverse:", "dns"); (DnsMode, "reverse", "dns");
         (DtlsMode, "reverse:", "dtls"); (DtlsMode, "reverse", "dtls")].
Proof.
  intros r pc spec msg. rewrite parse_unfold, port_ok_iff.
  destruct (parse_listen_at (listen_segment spec)) as [[h p]|e0] eqn:Hl;
    cbn [bind].
  2: { apply parse_listen_at_Raise in Hl as (-> & _ & _). done. }
  destruct (lookup_mode pc (mode_name spec)) as [mc|e] eqn:Hm; cbn [bind].
  2: { intros [= ->]. apply lookup_mode_errors in Hm as [?|[? ?]]; done. }
  intros Hc. split; [by eauto|]. unfold construct in Hc.
  set (d := mode_data spec) in *.
  destruct (post_init r mc d) as [[sch addr]|e] eqn:Hp; cbn [bind] in Hc;
    [done|]. injection Hc as ->.
  destruct mc.
  1, 2, 5: rewrite post_init_no_args in Hp by done; by destruct (truthy d).
  - unfold post_init, resolve in Hp.
    destruct (r d "http") as [m0|[sch addr]] eqn:Hr; simpl in Hp.
    + injection Hp as ->. exists UpstreamMode, "", d, "http".
      split_and!; [done|done|done|]. rewrite !elem_of_cons. tauto.
    + by destruct (negb _ && negb _).
  - unfold post_init, resolve in Hp.
    destruct (r d "https") as [m0|[sch addr]] eqn:Hr; simpl in Hp.
    + injection Hp as ->. exists ReverseMode, "", d, "https".
      split_and!; [done|done|done|]. rewrite !elem_of_cons. tauto.
    + by destruct (negb _ && negb _ && negb _ && negb _).
  - destruct (decide (d ∈ [""; "resolve-local"; "transparent"])) as [Hd|Hd].
    { unfold post_init in Hp. by rewrite bool_decide_eq_true_2 in Hp. }
    rewrite post_init_dns_reverse in Hp by done.
    destruct (partition ":" d) as [[m sep] server] eqn:Hpart.
    apply partition_inv in Hpart as (Heq & _ & Hsep).
    case_decide as Hmr; [subst m|done].
    destruct (r server "dns") as [m0|[sch addr]] eqn:Hr;
      [|by case_decide]. injection Hp as ->.
    destruct Hsep as [->|[-> ->]].
    + exists DnsMode, "reverse:", server, "dns".
      split_and!; [done|by rewrite Heq|done|]. rewrite !elem_of_cons. tauto.
    + exists DnsMode, "reverse", "", "dns".
      split_and!; [done|by rewrite Heq|done|]. rewrite !elem_of_cons. tauto.
  - rewrite post_init_dtls in Hp.
    destruct (partition ":" d) as [[m sep] server] eqn:Hpart.
    apply partition_inv in Hpart as (Heq & _ & Hsep).
    case_decide as Hmr; [subst m|done].
    destruct (r server "dtls") as [m0|[sch addr]] eqn:Hr;
      [|by case_decide]. injection Hp as ->.
    destruct Hsep as [->|[-> ->]].
    + exists DtlsMode, "reverse:", server, "dtls".
      split_and!; [done|by rewrite Heq|done|]. rewrite !elem_of_cons. tauto.
    + exists DtlsMode, "reverse", "", "dtls".
      split_and!; [done|by rewrite Heq|done|]. rewrite !elem_of_cons. tauto.
Qed.

(** X15 at ["dns:reverse"], where the resolver is given the empty string. *)
Lemma X15_resolver_failures_pass_through_witness :
  port_ok "dns:reverse".
Proof.
  apply (X15_resolver_failures_pass_through AddressSpec.resolve ProxyModeCls
           "dns:reverse" "Invalid server specification: ").
  reflexivity.
Defined.

(** ** Two checks of the modelled builtins *)

(** A run of digits above the limit of [int] is refused, whatever number it
    spells: 4301 zeros are no port. *)
Lemma int_digit_limit s v :
  AddressSpec.decimal s = Some v ->
  int_max_str_digits < Z.of_nat (String.length s) ->
  int s = None.
Proof.
  intros Hd Hlong. rewrite (int_decimal _ _ Hd).
  destruct (Z.ltb_spec int_max_str_digits (Z.of_nat (String.length s)));
    [done|lia].
Qed.

(** The second scenario of the design document: without a port, the scheme
    [https] stands for the port 443. *)
Lemma reverse_https_default_port :
  parse AddressSpec.resolve ProxyModeCls
      "reverse:https://example.com@127.0.0.1:443" =
    Ok {| cls := ReverseMode;
          full_spec := "reverse:https://example.com@127.0.0.1:443";
          data := "https://example.com";
          custom_listen_host := Some "127.0.0.1";
          custom_listen_port := Some 443;
          scheme := Some "https";
          address := Some ("example.com", 443) |}.
Proof. by vm_compute. Qed.
